(** * fix_code_style.py: the line-oriented C style normaliser

    A shallow embedding of [fix_code_style.py] (LoongArch64 directory):
    the three rewrite passes [fix_comment_separators],
    [fix_function_spacing], [fix_return_spacing], their composition in
    [process_file], and the driver [main].

    Python [str] values are sequences of Unicode code points; they are
    modelled as lists of [N].  The two functions of the [re] module the
    script uses ([re.sub], [re.match]) are modelled by a backtracking
    matcher for the fragment of the pattern language the script writes:
    sequences of single-character atoms (a literal, [.], [\s]) under the
    greedy quantifiers [*] and [+]. *)

From Stdlib Require Import String Ascii List Bool Arith Lia NArith.
Import ListNotations.

(** ** Python strings *)

Definition char := N.
Definition str := list char.

(** UTF-8 decoding, used to write the script's literals as they appear in
    its source ([# -*- coding: utf-8 -*-]). *)
Fixpoint utf8_decode (need : nat) (acc : N) (bs : list N) : str :=
  match bs with
  | [] => []
  | b :: bs' =>
      match need with
      | 0 =>
          if (b <? 128)%N then b :: utf8_decode 0 0%N bs'
          else if (b <? 224)%N then utf8_decode 1 (b - 192)%N bs'
          else if (b <? 240)%N then utf8_decode 2 (b - 224)%N bs'
          else utf8_decode 3 (b - 240)%N bs'
      | 1 => (acc * 64 + (b - 128))%N :: utf8_decode 0 0%N bs'
      | S n => utf8_decode n (acc * 64 + (b - 128))%N bs'
      end
  end.

Definition py (s : string) : str :=
  utf8_decode 0 0%N (map N_of_ascii (list_ascii_of_string s)).

Definition NL : char := 10%N.

(** [str.isspace] for one character, which is also what [\s] matches in a
    [str] pattern: the code points CPython classifies as whitespace. *)
Definition isspace (c : char) : bool :=
  ((9 <=? c) && (c <=? 13) || (28 <=? c) && (c <=? 32)
   || (c =? 133) || (c =? 160) || (c =? 5760)
   || (8192 <=? c) && (c <=? 8202)
   || (c =? 8232) || (c =? 8233) || (c =? 8239) || (c =? 8287)
   || (c =? 12288))%N.

Fixpoint eqb_str (a b : str) : bool :=
  match a, b with
  | [], [] => true
  | x :: a', y :: b' => (x =? y)%N && eqb_str a' b'
  | _, _ => false
  end.

(** [s.startswith(w)] *)
Fixpoint startswith (s w : str) {struct w} : bool :=
  match w with
  | [] => true
  | y :: w' =>
      match s with
      | [] => false
      | x :: s' => (x =? y)%N && startswith s' w'
      end
  end.

(** [w in s] *)
Fixpoint contains (w s : str) : bool :=
  startswith s w || match s with [] => false | _ :: s' => contains w s' end.

Fixpoint lstrip (s : str) : str :=
  match s with
  | [] => []
  | c :: s' => if isspace c then lstrip s' else s
  end.

Definition rstrip (s : str) : str := rev (lstrip (rev s)).

(** [s.strip()] *)
Definition strip (s : str) : str := rstrip (lstrip s).

(** [content.split('\n')]: never empty; a text of [n] newlines has [n + 1]
    lines. *)
Fixpoint split_nl (s : str) : list str :=
  match s with
  | [] => [[]]
  | c :: s' =>
      if (c =? NL)%N then [] :: split_nl s'
      else match split_nl s' with
           | l :: ls => (c :: l) :: ls
           | [] => [[c]]
           end
  end.

(** ['\n'.join(lines)] *)
Fixpoint join_nl (ls : list str) : str :=
  match ls with
  | [] => []
  | [l] => l
  | l :: ls' => l ++ NL :: join_nl ls'
  end.

Definition no_newline (s : str) : bool := forallb (fun c => negb (c =? NL)%N) s.

(** [lines[i]] for an index in range (every use below is guarded). *)
Definition get (lines : list str) (i : nat) : str := nth i lines [].

(** ** The fragment of [re] the script uses *)

Module Re.

Inductive cls :=
| CChar (c : char)   (* a literal character *)
| CDot               (* [.]: anything but a newline *)
| CSpace.            (* [\s] *)

Definition cls_match (k : cls) (a : char) : bool :=
  match k with
  | CChar c => (a =? c)%N
  | CDot => negb (a =? NL)%N
  | CSpace => isspace a
  end.

Inductive item :=
| One (k : cls)
| Star (k : cls).    (* greedy *)

Definition regex := list item.

Definition lit (w : str) : regex := map (fun c => One (CChar c)) w.
Definition plus (k : cls) : regex := [One k; Star k].

(** Backtracking match of [p] at the start of [s]: the text left after
    the match the engine reports (the first one in its search order, a
    greedy [*] trying the longest repetition first). *)
Fixpoint match_here (p : regex) : str -> option str :=
  match p with
  | [] => fun s => Some s
  | One k :: p' =>
      fun s =>
        match s with
        | a :: s' => if cls_match k a then match_here p' s' else None
        | [] => None
        end
  | Star k :: p' =>
      fix star (s : str) : option str :=
        match s with
        | a :: s' =>
            if cls_match k a then
              match star s' with
              | Some r => Some r
              | None => match_here p' s
              end
            else match_here p' s
        | [] => match_here p' s
        end
  end.

(** [re.match(p, s)] as a truth value ([^] at the head of the pattern
    is implied by [re.match]). *)
Definition re_match (p : regex) (s : str) : bool :=
  match match_here p s with Some _ => true | None => false end.

(** [re.sub(p, repl, s)] for a replacement without escapes: scan left to
    right; at a position where [p] matches, emit [repl] and go on after
    the match; elsewhere copy one character.  [fuel] bounds the number of
    positions visited.  (A match of length 0, which no pattern of the
    script can produce, also copies the character it stands before.) *)
Fixpoint sub_loop (fuel : nat) (p : regex) (repl : str) (s : str) : str :=
  match fuel with
  | 0 => s
  | S fuel' =>
      match match_here p s with
      | Some rest =>
          if length rest <? length s then repl ++ sub_loop fuel' p repl rest
          else repl ++ match s with
                       | [] => []
                       | a :: s' => a :: sub_loop fuel' p repl s'
                       end
      | None =>
          match s with
          | [] => []
          | a :: s' => a :: sub_loop fuel' p repl s'
          end
      end
  end.

Definition re_sub (p : regex) (repl : str) (s : str) : str :=
  sub_loop (S (length s)) p repl s.

End Re.
Import Re.

(** ** The script *)

Definition FILES : list string :=
  [ "arch_run2user.c"; "arch_tls.c"; "atomic.c"; "cache.c";
    "context_cpu_state.c"; "cpu.c"; "mmu.c"; "ptrace.c"; "exception.c";
    "arch.c"; "arch_signal.c"; "arch_uaccess.c"; "cpu_info.c";
    "asm-offsets.c"; "coredump.c"; "generic_timer.c"; "ipi.c";
    "loongarch_timer.c"; "tlb.c"; "ttosConfig.c"; "arch_init.c";
    "backtrace.c" ]%string.

Definition OPEN : str := Eval vm_compute in py "/*".
Definition CLOSE : str := Eval vm_compute in py "*/".

(** The pattern [/\*.*KEYWORD.*\*/]. *)
Definition banner_re (keyword : str) : regex :=
  lit OPEN ++ Star CDot :: lit keyword ++ Star CDot :: lit CLOSE.

Definition replacements : list (regex * str) :=
  [
    (banner_re (py "头 文 件"),
     py "/*************************** 头文件包含 ****************************/");
    (banner_re (py "外部函数声明"),
     py "/*************************** 外部函数声明 ****************************/");
    (banner_re (py "外部声明"),
     py "/*************************** 外部声明 ****************************/");
    (banner_re (py "宏 定 义"),
     py "/*************************** 宏定义 ****************************/");
    (banner_re (py "类型定义"),
     py "/*************************** 类型定义 ****************************/");
    (banner_re (py "全局变量"),
     py "/*************************** 全局变量 ****************************/");
    (banner_re (py "模块变量"),
     py "/*************************** 模块变量 ****************************/");
    (banner_re (py "前向声明"),
     py "/*************************** 前向声明 ****************************/");
    (banner_re (py "函数实现"),
     py "/*************************** 函数实现 ****************************/") ].

Definition fix_comment_separators (content : str) : str :=
  fold_left (fun content '(pattern, replacement) =>
               re_sub pattern replacement content)
            replacements content.

Definition RBRACE : str := Eval vm_compute in py "}".
Definition LBRACE : str := Eval vm_compute in py "{".
Definition DOC_OPEN : str := Eval vm_compute in py "/**".

(** The inner loop of [fix_function_spacing]:
    [while j < len(lines) and lines[j].strip() == '': has_empty = True; j += 1],
    run over [lines[j:]]. *)
Fixpoint blank_run (rest : list str) (has_empty : bool) : bool :=
  match rest with
  | l :: rest' =>
      if eqb_str (strip l) [] then blank_run rest' true else has_empty
  | [] => has_empty
  end.

(** One iteration of the [while i < len(lines)] loop of
    [fix_function_spacing]. *)
Definition fs_body (lines : list str) (i : nat) (result : list str) : list str :=
  let result := result ++ [get lines i] in
  if eqb_str (strip (get lines i)) RBRACE then
    if i + 1 <? length lines then
      let next_line := strip (get lines (i + 1)) in
      if startswith next_line DOC_OPEN then
        let has_empty := blank_run (skipn (i + 1) lines) false in
        if negb has_empty then result ++ [[]] else result
      else result
    else result
  else result.

(** The loop itself: [i] goes up by one in every iteration, so it runs
    [len(lines) - i] times; [n] counts the iterations left. *)
Fixpoint fs_loop (lines : list str) (n i : nat) (result : list str) : list str :=
  match n with
  | 0 => result
  | S n' => fs_loop lines n' (i + 1) (fs_body lines i result)
  end.

Definition fix_function_spacing (content : str) : str :=
  let lines := split_nl content in
  join_nl (fs_loop lines (length lines) 0 []).

(** [r'^return\s+.*;'] *)
Definition return_re : regex :=
  lit (py "return") ++ plus CSpace ++ Star CDot :: lit (py ";").

Definition RETURN_SEMI : str := Eval vm_compute in py "return;".

(** [range(start, stop, -1)]: [start, start - 1, ..., stop + 1]. *)
Definition range_down (start stop : nat) : list nat :=
  map (fun k => start - k) (seq 0 (start - stop)).

(** The [for j in range(i - 1, max(0, i - 5), -1)] loop with its two
    [break]s; the value of [in_function] when it ends. *)
Fixpoint in_function_scan (lines : list str) (js : list nat) : bool :=
  match js with
  | [] => false
  | j :: js' =>
      if eqb_str (strip (get lines j)) RBRACE then false
      else if eqb_str (strip (get lines j)) LBRACE then true
      else in_function_scan lines js'
  end.

(** [i - 5] is a Python integer and may be negative; [max(0, i - 5)] is
    the truncated subtraction of [nat]. *)
Definition in_function (lines : list str) (i : nat) : bool :=
  in_function_scan lines (range_down (i - 1) (Nat.max 0 (i - 5))).

Definition is_last_statement (lines : list str) (i : nat) : bool :=
  if i + 1 <? length lines then eqb_str (strip (get lines (i + 1))) RBRACE
  else false.

Definition is_return_stmt (stripped : str) : bool :=
  re_match return_re stripped || eqb_str stripped RETURN_SEMI.

Definition prev_nonblank (lines : list str) (i : nat) : bool :=
  (0 <? i) && negb (eqb_str (strip (get lines (i - 1))) []).

(** One iteration of the [while i < len(lines)] loop of
    [fix_return_spacing]. *)
Definition rs_body (lines : list str) (i : nat) (result : list str) : list str :=
  let result := result ++ [get lines i] in
  let stripped := strip (get lines i) in
  if is_return_stmt stripped then
    if prev_nonblank lines i then
      if in_function lines i && negb (is_last_statement lines i) then
        if prev_nonblank lines i then
          (removelast result ++ [[]]) ++ [get lines i]
        else result
      else result
    else result
  else result.

Fixpoint rs_loop (lines : list str) (n i : nat) (result : list str) : list str :=
  match n with
  | 0 => result
  | S n' => rs_loop lines n' (i + 1) (rs_body lines i result)
  end.

Definition fix_return_spacing (content : str) : str :=
  let lines := split_nl content in
  join_nl (rs_loop lines (length lines) 0 []).

(** [fix_pointer_declaration] is kept by the script for later work and
    returns its argument; [process_file] does not call it. *)
Definition fix_pointer_declaration (content : str) : str := content.

(** The three passes as [process_file] chains them. *)
Definition apply_fixes (content : str) : str :=
  fix_return_spacing (fix_function_spacing (fix_comment_separators content)).

(** ** The driver

    The file system as the script sees it: a file name of [FILES] (joined
    to the script's directory) maps to nothing when [os.path.exists] is
    false, and otherwise to a file that cannot be read (opening, reading
    or decoding raises), that can be read but not written, or that can be
    read and rewritten. *)

Module Driver.

Inductive file :=
| Unreadable
| ReadOnly (content : str)
| Regular (content : str).

Definition filesystem := string -> option file.

Definition update (fs : filesystem) (path : string) (f : file) : filesystem :=
  fun p => if String.eqb p path then Some f else fs p.

(** What the script prints. *)
Inductive message :=
| Processing (path : string)
| Done
| Error
| NotFound (path : string)
| Summary (success_count fail_count : nat).

(** [open(filepath, 'r', encoding='utf-8')] then [f.read()]; [None]
    stands for a raised exception. *)
Definition read_file (fs : filesystem) (path : string) : option str :=
  match fs path with
  | Some (Regular c) | Some (ReadOnly c) => Some c
  | Some Unreadable | None => None
  end.

(** [open(filepath, 'w', encoding='utf-8')] then [f.write(content)]. *)
Definition write_file (fs : filesystem) (path : string) (content : str)
  : option filesystem :=
  match fs path with
  | Some (Regular _) | None => Some (update fs path (Regular content))
  | Some (ReadOnly _) | Some Unreadable => None
  end.

(** [process_file]: the [try] body, and [except Exception] turning any
    failure into [False]. *)
Definition process_file (fs : filesystem) (filepath : string)
  : bool * filesystem * list message :=
  match read_file fs filepath with
  | None => (false, fs, [Processing filepath; Error])
  | Some content =>
      let content := fix_comment_separators content in
      let content := fix_function_spacing content in
      let content := fix_return_spacing content in
      match write_file fs filepath content with
      | None => (false, fs, [Processing filepath; Error])
      | Some fs' => (true, fs', [Processing filepath; Done])
      end
  end.

Record tally := { success_count : nat; fail_count : nat }.

(** The [for filename in FILES] loop of [main]. *)
Fixpoint main_loop (files : list string) (fs : filesystem) (t : tally)
  (out : list message) : filesystem * tally * list message :=
  match files with
  | [] => (fs, t, out)
  | filename :: files' =>
      match fs filename with
      | Some _ =>
          let '(ok, fs', msgs) := process_file fs filename in
          if ok then
            main_loop files' fs'
              {| success_count := success_count t + 1;
                 fail_count := fail_count t |} (out ++ msgs)
          else
            main_loop files' fs'
              {| success_count := success_count t;
                 fail_count := fail_count t + 1 |} (out ++ msgs)
      | None =>
          main_loop files' fs
            {| success_count := success_count t;
               fail_count := fail_count t + 1 |} (out ++ [NotFound filename])
      end
  end.

(** [main]: the exit status, the file system it leaves and its output. *)
Definition main (fs : filesystem) : nat * filesystem * list message :=
  let '(fs', t, out) :=
    main_loop FILES fs {| success_count := 0; fail_count := 0 |} [] in
  (if fail_count t =? 0 then 0 else 1,
   fs',
   out ++ [Summary (success_count t) (fail_count t)]).

End Driver.
Import Driver.

(** ** The passes as functions on lines

    What the two spacing loops compute, by recursion on the list of
    lines.  [fs_lines] looks one line ahead; [rs_lines] carries the lines
    already passed, nearest first. *)

Definition fs_insert (l : str) (after : list str) : bool :=
  eqb_str (strip l) RBRACE
  && match after with
     | nx :: _ => startswith (strip nx) DOC_OPEN
     | [] => false
     end.

Fixpoint fs_lines (ls : list str) : list str :=
  match ls with
  | [] => []
  | l :: after =>
      if fs_insert l after then l :: [] :: fs_lines after
      else l :: fs_lines after
  end.

Fixpoint brace_scan (ls : list str) : bool :=
  match ls with
  | [] => false
  | l :: ls' =>
      if eqb_str (strip l) RBRACE then false
      else if eqb_str (strip l) LBRACE then true
      else brace_scan ls'
  end.

Definition rs_insert (before : list str) (l : str) (after : list str) : bool :=
  is_return_stmt (strip l)
  && match before with
     | pv :: _ => negb (eqb_str (strip pv) [])
     | [] => false
     end
  && brace_scan (firstn 4 (removelast before))
  && negb match after with
          | nx :: _ => eqb_str (strip nx) RBRACE
          | [] => false
          end.

Fixpoint rs_lines (before ls : list str) : list str :=
  match ls with
  | [] => []
  | l :: after =>
      if rs_insert before l after then [] :: l :: rs_lines (l :: before) after
      else l :: rs_lines (l :: before) after
  end.

(** The decision [fix_return_spacing] takes at line [i], in the terms of
    the loop body. *)
Definition inserts_before_return (lines : list str) (i : nat) : bool :=
  is_return_stmt (strip (get lines i))
  && prev_nonblank lines i
  && in_function lines i
  && negb (is_last_statement lines i).

(** The decision [fix_function_spacing] takes at line [i]. *)
Definition inserts_after_brace (lines : list str) (i : nat) : bool :=
  eqb_str (strip (get lines i)) RBRACE
  && (i + 1 <? length lines)
  && startswith (strip (get lines (i + 1))) DOC_OPEN.

(** The number of lines of a text. *)
Definition line_count (content : str) : nat := length (split_nl content).

(** ** Notions used in the statements and proofs *)

Definition is_one (i : item) : bool :=
  match i with One _ => true | Star _ => false end.

(** No atom of the pattern accepts a newline: the text after the next
    newline does not matter. *)
Definition avoids_newline (p : regex) : bool :=
  forallb (fun i => match i with
                    | One k | Star k => negb (cls_match k NL)
                    end) p.

Definition all_lines (ls : list str) : Prop :=
  Forall (fun l => no_newline l = true) ls.

(** No line that trims to a closing brace is directly followed by a
    documentation comment. *)
Fixpoint spaced (ls : list str) : Prop :=
  match ls with
  | [] => True
  | l :: after => fs_insert l after = false /\ spaced after
  end.

(** [padded p p']: the lines passed in a second run, [p'], are those of
    the first run, [p], with blank lines put between some of them. *)
Inductive padded : list str -> list str -> Prop :=
| padded_nil : padded [] []
| padded_keep l p p' : padded p p' -> padded (l :: p) (l :: p')
| padded_blank l p p' : p <> [] -> padded p p' -> padded (l :: p) (l :: [] :: p').

Definition close_re : regex := Star CDot :: lit CLOSE.

Definition no_slash (t : str) : bool := forallb (fun c => negb (c =? 47)%N) t.

Definition apply_rule (content : str) (r : regex * str) : str :=
  let '(pattern, replacement) := r in re_sub pattern replacement content.

Definition body_of (b : str) : str := firstn (length b - 4) (skipn 2 b).

Definition banner_ok (b : str) : bool :=
  eqb_str b (OPEN ++ body_of b ++ CLOSE)
  && no_slash (body_of b) && no_newline (body_of b).

(** What the proofs use of an entry of [replacements]: its pattern is
    [/\*.*KEYWORD.*\*/] for a keyword without newline, its replacement is a
    one-line comment without [/] inside, and the keyword occurs in no
    replacement but its own. *)
Definition is_rule (r : regex * str) : Prop :=
  exists kw,
    fst r = banner_re kw
    /\ no_newline kw = true
    /\ banner_ok (snd r) = true
    /\ forallb (fun r2 => implb (contains kw (snd r2))
                                (eqb_str (snd r) (snd r2)))
               replacements = true.

Definition settled (l : str) : Prop :=
  Forall (fun r => apply_rule l r = l) replacements.

(** The lines of the output of [apply_fixes]. *)
Definition fixed_lines (content : str) : list str :=
  rs_lines [] (fs_lines (map fix_comment_separators (split_nl content))).

Definition HEADER_KEYWORD : str := Eval vm_compute in py "头 文 件".

Definition HEADER_BANNER : str := Eval vm_compute in
  py "/*************************** 头文件包含 ****************************/".

(** The bytes of a Rocq string, and the UTF-8 encoding [process_file]
    writes a text in. *)
Definition bytes_of (s : string) : list N :=
  map N_of_ascii (list_ascii_of_string s).

Definition utf8_encode_char (c : char) : list N :=
  (if c <? 128 then [c]
   else if c <? 2048 then [192 + c / 64; 128 + c mod 64]
   else if c <? 65536 then
     [224 + c / 4096; 128 + (c / 64) mod 64; 128 + c mod 64]
   else [240 + c / 262144; 128 + (c / 4096) mod 64;
         128 + (c / 64) mod 64; 128 + c mod 64])%N.

Definition utf8_encode (s : str) : list N := flat_map utf8_encode_char s.

(** The keyword a pattern [/\*.*KEYWORD.*\*/] is built around. *)
Fixpoint lit_prefix (p : regex) : str :=
  match p with
  | One (CChar c) :: p' => c :: lit_prefix p'
  | _ => []
  end.

Definition keyword_of (p : regex) : str :=
  match skipn 2 p with
  | Star CDot :: p' => lit_prefix p'
  | _ => []
  end.

Definition keywords : list str :=
  map (fun r => keyword_of (fst r)) replacements.

(** The classification as the specification words it: scan the lines
    before line [i] backward, up to four of them; the return is inside a
    function when a line that trims to an opening brace comes before one
    that trims to a closing brace. *)
Definition spec_in_function (lines : list str) (i : nat) : bool :=
  brace_scan (firstn 4 (rev (firstn i lines))).

(** Brace balance, for reference: the position in [before] (the lines
    already passed, nearest first) of the opening brace that is not closed
    again, [depth] closing braces being still to be matched. *)
Fixpoint enclosing_open (before : list str) (depth : nat) : option nat :=
  match before with
  | [] => None
  | l :: before' =>
      if eqb_str (strip l) RBRACE then
        option_map S (enclosing_open before' (S depth))
      else if eqb_str (strip l) LBRACE then
        match depth with
        | 0 => Some 0
        | S d => option_map S (enclosing_open before' d)
        end
      else option_map S (enclosing_open before' depth)
  end.

(** The index of the line holding the brace that encloses line [i]. *)
Definition enclosing_brace (lines : list str) (i : nat) : option nat :=
  option_map (fun k => i - 1 - k) (enclosing_open (rev (firstn i lines)) 0).

(** A file the script can read and rewrite. *)
Definition processable (fs : filesystem) (path : string) : bool :=
  match fs path with
  | Some (Regular _) => true
  | _ => false
  end.

(** A directory holding one of the files only. *)
Definition one_file (path : string) (content : str) : filesystem :=
  fun p => if String.eqb p path then Some (Regular content) else None.


(** [fpad p p']: the lines passed by the return pass after the function
    pass has run, [p'], are those passed before it ran, [p], with a blank
    line next to (in the file: right after) some of the lines that trim to
    a closing brace. *)
Inductive fpad : list str -> list str -> Prop :=
| fpad_nil : fpad [] []
| fpad_keep l p p' : fpad p p' -> fpad (l :: p) (l :: p')
| fpad_brace x p p' :
    eqb_str (strip x) RBRACE = true -> fpad p p' ->
    fpad (x :: p) ([] :: x :: p').

(** The file a message of the driver is about. *)
Definition reported (m : message) : list string :=
  match m with
  | Processing path | NotFound path => [path]
  | Done | Error | Summary _ _ => []
  end.

Definition RETURN : str := Eval vm_compute in py "return".

(** * Proofs *)

(** ** Strings *)

Lemma eqb_str_eq (a b : str) : eqb_str a b = true <-> a = b.
Proof.
  revert b; induction a as [|x a IH]; destruct b as [|y b]; simpl;
    try (split; [discriminate | congruence]); try tauto.
  rewrite andb_true_iff, N.eqb_eq, IH. split.
  - intros [-> ->]; reflexivity.
  - intros H; inversion H; auto.
Qed.

Lemma eqb_str_neq (a b : str) : eqb_str a b = false <-> a <> b.
Proof.
  rewrite <- eqb_str_eq. destruct (eqb_str a b); split; congruence.
Qed.

Lemma startswith_app (w s : str) : startswith (w ++ s) w = true.
Proof.
  induction w as [|y w IH]; simpl; [reflexivity|].
  rewrite N.eqb_refl; exact IH.
Qed.

Lemma startswith_split (s w : str) :
  startswith s w = true -> exists t, s = w ++ t.
Proof.
  revert s; induction w as [|y w IH]; intros s H; simpl in *.
  - exists s; reflexivity.
  - destruct s as [|x s]; [discriminate|].
    apply andb_true_iff in H as [Hx Hs]. apply N.eqb_eq in Hx; subst x.
    destruct (IH _ Hs) as [t ->]. exists t; reflexivity.
Qed.

Lemma contains_cons (w : str) (a : char) (s : str) :
  contains w (a :: s) = startswith (a :: s) w || contains w s.
Proof. reflexivity. Qed.

Lemma contains_tail (w : str) (a : char) (s : str) :
  contains w (a :: s) = false -> contains w s = false.
Proof. rewrite contains_cons. intros H; apply orb_false_iff in H; tauto. Qed.

Lemma contains_head (w : str) (s : str) :
  contains w s = false -> startswith s w = false.
Proof.
  destruct s; simpl; intros H; apply orb_false_iff in H; tauto.
Qed.

Lemma contains_app_r (w x s : str) :
  contains w s = true -> contains w (x ++ s) = true.
Proof.
  intros H; induction x as [|a x IH]; simpl app; [exact H|].
  rewrite contains_cons, IH. apply orb_true_r.
Qed.

Lemma contains_mid (w x y : str) : contains w (x ++ w ++ y) = true.
Proof.
  apply contains_app_r. destruct (w ++ y) eqn:E.
  - destruct w; [reflexivity | discriminate].
  - rewrite contains_cons, <- E, startswith_app. reflexivity.
Qed.

Lemma contains_suffix (w x s : str) :
  contains w (x ++ s) = false -> contains w s = false.
Proof.
  intros H. destruct (contains w s) eqn:E; [|reflexivity].
  rewrite (contains_app_r w x s E) in H. discriminate.
Qed.

Lemma no_newline_app (a b : str) :
  no_newline (a ++ b) = no_newline a && no_newline b.
Proof. apply forallb_app. Qed.

(** ** The matcher *)

Lemma match_star_nil (k : cls) (q : regex) :
  match_here (Star k :: q) [] = match_here q [].
Proof. reflexivity. Qed.

Lemma match_star_cons (k : cls) (q : regex) (a : char) (s : str) :
  match_here (Star k :: q) (a :: s) =
  if cls_match k a then
    match match_here (Star k :: q) s with
    | Some r => Some r
    | None => match_here q (a :: s)
    end
  else match_here q (a :: s).
Proof. reflexivity. Qed.

Lemma match_one_cons (k : cls) (q : regex) (a : char) (s : str) :
  match_here (One k :: q) (a :: s) =
  if cls_match k a then match_here q s else None.
Proof. reflexivity. Qed.

Lemma match_lit_app (w : str) (q : regex) (s : str) :
  match_here (lit w ++ q) (w ++ s) = match_here q s.
Proof.
  induction w as [|c w IH]; [reflexivity|].
  simpl. rewrite N.eqb_refl. exact IH.
Qed.

Lemma match_lit_inv (w : str) (q : regex) (s r : str) :
  match_here (lit w ++ q) s = Some r ->
  exists s', s = w ++ s' /\ match_here q s' = Some r.
Proof.
  revert s; induction w as [|c w IH]; intros s H.
  - exists s; auto.
  - simpl in H. destruct s as [|a s]; [discriminate|].
    destruct (a =? c)%N eqn:E; [|discriminate].
    apply N.eqb_eq in E; subst a.
    destruct (IH _ H) as (s' & -> & H'). exists s'; auto.
Qed.

Lemma match_lit_none (w : str) (q : regex) (s : str) :
  startswith s w = false -> match_here (lit w ++ q) s = None.
Proof.
  intros H. destruct (match_here (lit w ++ q) s) eqn:E; [|reflexivity].
  apply match_lit_inv in E as (s' & -> & _).
  rewrite startswith_app in H. discriminate.
Qed.

(** A greedy star keeps a match found further to the right. *)
Lemma star_prefer (k : cls) (q : regex) (u v r : str) :
  forallb (cls_match k) u = true ->
  match_here (Star k :: q) v = Some r ->
  match_here (Star k :: q) (u ++ v) = Some r.
Proof.
  intros Hu Hv; induction u as [|a u IH]; [exact Hv|].
  simpl in Hu; apply andb_true_iff in Hu as [Ha Hu].
  simpl app. rewrite match_star_cons, Ha, (IH Hu). reflexivity.
Qed.

Lemma star_base (k : cls) (q : regex) (v r : str) :
  match_here q v = Some r -> exists r', match_here (Star k :: q) v = Some r'.
Proof.
  intros H. destruct v as [|a v].
  - rewrite match_star_nil. eauto.
  - rewrite match_star_cons. destruct (cls_match k a); [|eauto].
    destruct (match_here (Star k :: q) v); eauto.
Qed.

Lemma star_complete (k : cls) (q : regex) (u v r : str) :
  forallb (cls_match k) u = true ->
  match_here q v = Some r ->
  exists r', match_here (Star k :: q) (u ++ v) = Some r'.
Proof.
  intros Hu Hv. destruct (star_base k q v r Hv) as [r1 Hr1].
  exists r1. apply star_prefer; assumption.
Qed.

Lemma star_sound (k : cls) (q : regex) (s r : str) :
  match_here (Star k :: q) s = Some r ->
  exists u v, s = u ++ v /\ forallb (cls_match k) u = true
              /\ match_here q v = Some r.
Proof.
  induction s as [|a s IH]; intros H.
  - exists [], []; auto.
  - rewrite match_star_cons in H.
    destruct (cls_match k a) eqn:Ha.
    + destruct (match_here (Star k :: q) s) eqn:E.
      * destruct (IH H) as (u & v & -> & Hu & Hv).
        exists (a :: u), v; simpl; rewrite Ha; auto.
      * exists [], (a :: s); auto.
    + exists [], (a :: s); auto.
Qed.

(** A match consumes a prefix of the text. *)
Lemma match_here_suffix (p : regex) (s r : str) :
  match_here p s = Some r -> exists m, s = m ++ r.
Proof.
  revert s; induction p as [|[k|k] p IH]; intros s H.
  - exists []; simpl in *; congruence.
  - simpl in H. destruct s as [|a s]; [discriminate|].
    destruct (cls_match k a); [|discriminate].
    destruct (IH _ H) as [m ->]. exists (a :: m); reflexivity.
  - apply star_sound in H as (u & v & -> & _ & Hv).
    destruct (IH _ Hv) as [m ->]. exists (u ++ m). apply app_assoc.
Qed.

Lemma match_here_shorter (p : regex) (s r : str) :
  existsb is_one p = true ->
  match_here p s = Some r -> length r < length s.
Proof.
  revert s; induction p as [|[k|k] p IH]; intros s Hp H.
  - discriminate.
  - simpl in H. destruct s as [|a s]; [discriminate|].
    destruct (cls_match k a); [|discriminate].
    destruct (match_here_suffix _ _ _ H) as [m ->].
    simpl; rewrite length_app; lia.
  - apply star_sound in H as (u & v & -> & _ & Hv).
    simpl in Hp. specialize (IH _ Hp Hv). rewrite length_app; lia.
Qed.

Lemma match_here_line (p : regex) (l t : str) :
  avoids_newline p = true ->
  match_here p (l ++ NL :: t) =
  option_map (fun r => r ++ NL :: t) (match_here p l).
Proof.
  revert l; induction p as [|[k|k] p IH]; intros l Hp.
  - reflexivity.
  - simpl in Hp; apply andb_true_iff in Hp as [Hk Hp].
    apply negb_true_iff in Hk.
    destruct l as [|a l]; simpl.
    + change (cls_match k 10%N) with (cls_match k NL). rewrite Hk. reflexivity.
    + destruct (cls_match k a); [apply IH; exact Hp | reflexivity].
  - simpl in Hp; apply andb_true_iff in Hp as [Hk Hp].
    apply negb_true_iff in Hk.
    induction l as [|a l IHl].
    + simpl app. rewrite match_star_cons, Hk, match_star_nil.
      apply (IH [] Hp).
    + simpl app. rewrite !match_star_cons.
      destruct (cls_match k a).
      * rewrite IHl. destruct (match_here (Star k :: p) l); simpl;
          [reflexivity | apply (IH (a :: l) Hp)].
      * apply (IH (a :: l) Hp).
Qed.

(** ** [re.sub] *)

Section Sub.

Variables (p : regex) (repl : str).
Hypothesis p_one : existsb is_one p = true.

Lemma sub_loop_fuel (f1 f2 : nat) (s : str) :
  length s < f1 -> length s < f2 ->
  sub_loop f1 p repl s = sub_loop f2 p repl s.
Proof.
  revert f2 s; induction f1 as [|f1 IH]; intros f2 s H1 H2; [lia|].
  destruct f2 as [|f2]; [lia|]. simpl.
  destruct (match_here p s) as [rest|] eqn:E.
  - pose proof (match_here_shorter p s rest p_one E) as Hlt.
    apply Nat.ltb_lt in Hlt as Hb. rewrite Hb.
    f_equal. apply IH; lia.
  - destruct s as [|a s]; [reflexivity|].
    f_equal. simpl in *. apply IH; lia.
Qed.

Lemma re_sub_match (s r : str) :
  match_here p s = Some r -> re_sub p repl s = repl ++ re_sub p repl r.
Proof.
  intros E. unfold re_sub at 1. simpl. rewrite E.
  pose proof (match_here_shorter p s r p_one E) as Hlt.
  apply Nat.ltb_lt in Hlt as Hb. rewrite Hb.
  f_equal. apply sub_loop_fuel; lia.
Qed.

Lemma re_sub_skip (a : char) (s : str) :
  match_here p (a :: s) = None ->
  re_sub p repl (a :: s) = a :: re_sub p repl s.
Proof.
  intros E. unfold re_sub at 1. simpl sub_loop. rewrite E.
  reflexivity.
Qed.

Lemma match_here_nil : match_here p [] = None.
Proof.
  destruct (match_here p []) eqn:E; [|reflexivity].
  apply (match_here_shorter p _ _ p_one) in E. simpl in E; lia.
Qed.

Lemma re_sub_nil : re_sub p repl [] = [].
Proof. unfold re_sub; simpl. rewrite match_here_nil. reflexivity. Qed.

(** The text is rewritten by induction on its length: [P] holds of every
    text if it is carried through one step of the scan. *)
Lemma re_sub_ind (P : str -> Prop) :
  P [] ->
  (forall a s, match_here p (a :: s) = None -> P s -> P (a :: s)) ->
  (forall s r, match_here p s = Some r -> length r < length s ->
               P r -> P s) ->
  forall s, P s.
Proof.
  intros Hnil Hskip Hmatch s.
  remember (length s) as n eqn:Hn. revert s Hn.
  induction n as [n IH] using lt_wf_ind. intros s ->.
  destruct (match_here p s) as [r|] eqn:E.
  - pose proof (match_here_shorter p s r p_one E) as Hlt.
    apply (Hmatch s r E Hlt). apply (IH (length r) Hlt). reflexivity.
  - destruct s as [|a s]; [exact Hnil|].
    apply (Hskip a s E). apply (IH (length s)); simpl; auto.
Qed.

Hypothesis p_line : avoids_newline p = true.

Lemma re_sub_line (l t : str) :
  re_sub p repl (l ++ NL :: t) = re_sub p repl l ++ NL :: re_sub p repl t.
Proof.
  pattern l. apply re_sub_ind; clear l.
  - simpl app. rewrite re_sub_nil. simpl.
    apply re_sub_skip.
    change (NL :: t) with ([] ++ NL :: t).
    rewrite match_here_line, match_here_nil by exact p_line. reflexivity.
  - intros a s E IH. simpl app.
    rewrite (re_sub_skip a s E), re_sub_skip, IH; [reflexivity|].
    change (a :: s ++ NL :: t) with ((a :: s) ++ NL :: t).
    rewrite match_here_line, E by exact p_line. reflexivity.
  - intros s r E _ IH.
    rewrite (re_sub_match s r E).
    rewrite (re_sub_match (s ++ NL :: t) (r ++ NL :: t)).
    + rewrite IH, app_assoc. reflexivity.
    + rewrite match_here_line, E by exact p_line. reflexivity.
Qed.

Lemma re_sub_join (ls : list str) :
  re_sub p repl (join_nl ls) = join_nl (map (re_sub p repl) ls).
Proof.
  induction ls as [|l ls IH]; [apply re_sub_nil|].
  destruct ls as [|l' ls]; [reflexivity|].
  change (join_nl (l :: l' :: ls)) with (l ++ NL :: join_nl (l' :: ls)).
  rewrite re_sub_line, IH. reflexivity.
Qed.

Hypothesis repl_line : no_newline repl = true.

Lemma re_sub_no_newline (l : str) :
  no_newline l = true -> no_newline (re_sub p repl l) = true.
Proof.
  pattern l. apply re_sub_ind; clear l.
  - intros _. rewrite re_sub_nil. reflexivity.
  - intros a s E IH H. rewrite (re_sub_skip a s E).
    simpl in *. apply andb_true_iff in H as [Ha Hs].
    rewrite Ha, (IH Hs). reflexivity.
  - intros s r E _ IH H. rewrite (re_sub_match s r E).
    destruct (match_here_suffix _ _ _ E) as [m ->].
    rewrite no_newline_app in H. apply andb_true_iff in H as [_ Hr].
    rewrite no_newline_app, repl_line, (IH Hr). reflexivity.
Qed.

End Sub.

(** ** Lines *)

Lemma join_split (s : str) : join_nl (split_nl s) = s.
Proof.
  induction s as [|c s IH]; [reflexivity|].
  simpl. destruct (c =? NL)%N eqn:E.
  - apply N.eqb_eq in E; subst c.
    destruct (split_nl s) as [|l ls] eqn:Es.
    + simpl in IH. subst s. discriminate.
    + change (join_nl ([] :: l :: ls)) with ([] ++ NL :: join_nl (l :: ls)).
      rewrite IH. reflexivity.
  - destruct (split_nl s) as [|l ls] eqn:Es.
    + simpl in IH. subst s. reflexivity.
    + destruct ls as [|l' ls]; simpl in *; rewrite IH; reflexivity.
Qed.

Lemma split_nl_nonempty (s : str) : split_nl s <> [].
Proof.
  destruct s as [|c s]; simpl; [discriminate|].
  destruct (c =? NL)%N; [discriminate|].
  destruct (split_nl s); discriminate.
Qed.

Lemma split_line (l : str) : no_newline l = true -> split_nl l = [l].
Proof.
  induction l as [|c l IH]; intros H; [reflexivity|].
  simpl in *. apply andb_true_iff in H as [Hc Hl].
  apply negb_true_iff in Hc. rewrite Hc, (IH Hl). reflexivity.
Qed.

Lemma split_line_app (l t : str) :
  no_newline l = true -> split_nl (l ++ NL :: t) = l :: split_nl t.
Proof.
  induction l as [|c l IH]; intros H; [reflexivity|].
  simpl in *. apply andb_true_iff in H as [Hc Hl].
  apply negb_true_iff in Hc. rewrite Hc, (IH Hl). reflexivity.
Qed.

Lemma split_join (ls : list str) :
  ls <> [] -> all_lines ls -> split_nl (join_nl ls) = ls.
Proof.
  induction ls as [|l ls IH]; intros Hne H; [congruence|].
  inversion H as [|? ? Hl Hls]; subst.
  destruct ls as [|l' ls]; [apply split_line; exact Hl|].
  change (join_nl (l :: l' :: ls)) with (l ++ NL :: join_nl (l' :: ls)).
  rewrite (split_line_app _ _ Hl), IH; [reflexivity | discriminate | exact Hls].
Qed.

Lemma split_nl_lines (s : str) : all_lines (split_nl s).
Proof.
  induction s as [|c s IH]; simpl; [repeat constructor|].
  destruct (c =? NL)%N eqn:E.
  - constructor; [reflexivity | exact IH].
  - destruct (split_nl s) as [|l ls]; [repeat constructor; simpl; now rewrite E|].
    inversion IH; subst. constructor; [simpl; rewrite E; assumption | assumption].
Qed.

(** ** The loops and their reading on lines *)

Lemma get_here (pre : list str) (l : str) (after : list str) :
  get (pre ++ l :: after) (length pre) = l.
Proof. unfold get. apply nth_middle. Qed.

Lemma get_next (pre : list str) (l : str) (after : list str) :
  get (pre ++ l :: after) (length pre + 1) = hd [] after.
Proof.
  unfold get. replace (pre ++ l :: after) with ((pre ++ [l]) ++ after)
    by (rewrite <- app_assoc; reflexivity).
  rewrite app_nth2 by (rewrite length_app; simpl; lia).
  rewrite length_app; simpl.
  replace (length pre + 1 - (length pre + 1)) with 0 by lia.
  destruct after; reflexivity.
Qed.

Lemma has_next (pre : list str) (l : str) (after : list str) :
  (length pre + 1 <? length (pre ++ l :: after)) =
  match after with [] => false | _ :: _ => true end.
Proof.
  rewrite length_app; simpl. destruct after; simpl.
  - apply Nat.ltb_ge; lia.
  - apply Nat.ltb_lt; lia.
Qed.

Lemma skipn_next (pre : list str) (l : str) (after : list str) :
  skipn (length pre + 1) (pre ++ l :: after) = after.
Proof.
  replace (pre ++ l :: after) with ((pre ++ [l]) ++ after)
    by (rewrite <- app_assoc; reflexivity).
  replace (length pre + 1) with (length (pre ++ [l]))
    by (rewrite length_app; simpl; lia).
  rewrite skipn_app, skipn_all, Nat.sub_diag. reflexivity.
Qed.

Lemma startswith_nonempty (s w : str) :
  w <> [] -> startswith s w = true -> eqb_str s [] = false.
Proof.
  intros Hw H. destruct s; [|reflexivity].
  destruct w; [congruence | discriminate].
Qed.

(** The blank-line test of [fix_function_spacing] never fires: the line it
    starts from begins with [/**]. *)
Lemma blank_run_doc (after : list str) :
  startswith (strip (hd [] after)) DOC_OPEN = true ->
  blank_run after false = false.
Proof.
  destruct after as [|nx after]; [reflexivity|]. simpl. intros H.
  rewrite (startswith_nonempty _ DOC_OPEN); [reflexivity | discriminate | exact H].
Qed.

Lemma fs_body_lines (pre : list str) (l : str) (after result : list str) :
  fs_body (pre ++ l :: after) (length pre) result =
  result ++ (if fs_insert l after then [l; []] else [l]).
Proof.
  unfold fs_body, fs_insert.
  rewrite get_here, get_next, has_next, skipn_next.
  destruct (eqb_str (strip l) RBRACE); cbn [andb]; [|reflexivity].
  destruct after as [|nx after]; [reflexivity|].
  cbn [hd]. destruct (startswith (strip nx) DOC_OPEN) eqn:E; [|reflexivity].
  rewrite (blank_run_doc (nx :: after) E). cbn [negb].
  rewrite <- app_assoc. reflexivity.
Qed.

Lemma fs_loop_lines (pre rest result : list str) :
  fs_loop (pre ++ rest) (length rest) (length pre) result =
  result ++ fs_lines rest.
Proof.
  revert pre result; induction rest as [|l after IH]; intros pre result.
  - simpl. rewrite app_nil_r. reflexivity.
  - simpl fs_loop. rewrite fs_body_lines.
    replace (pre ++ l :: after) with ((pre ++ [l]) ++ after)
      by (rewrite <- app_assoc; reflexivity).
    replace (length pre + 1) with (length (pre ++ [l]))
      by (rewrite length_app; simpl; lia).
    rewrite IH. simpl fs_lines.
    destruct (fs_insert l after); rewrite <- app_assoc; reflexivity.
Qed.

Lemma fix_function_spacing_lines (content : str) :
  fix_function_spacing content = join_nl (fs_lines (split_nl content)).
Proof.
  unfold fix_function_spacing.
  exact (f_equal join_nl (fs_loop_lines [] (split_nl content) [])).
Qed.

Lemma in_function_scan_map (lines : list str) (js : list nat) :
  in_function_scan lines js = brace_scan (map (get lines) js).
Proof.
  induction js as [|j js IH]; [reflexivity|]. simpl. rewrite IH. reflexivity.
Qed.

Lemma map_nth_seq (l : list str) (m : nat) :
  m <= length l -> map (fun k => nth k l []) (seq 0 m) = firstn m l.
Proof.
  revert m; induction l as [|x l IH]; intros m Hm.
  - simpl in Hm. replace m with 0 by lia. reflexivity.
  - destruct m as [|m]; [reflexivity|].
    simpl. f_equal. rewrite <- seq_shift, map_map. apply IH.
    simpl in Hm; lia.
Qed.

(** The lines the backward scan looks at: the four nearest of the lines
    passed, the first line of the file left out. *)
Lemma scan_window (pre rest : list str) :
  map (get (pre ++ rest))
      (range_down (length pre - 1) (Nat.max 0 (length pre - 5))) =
  firstn 4 (removelast (rev pre)).
Proof.
  unfold range_down. rewrite map_map.
  set (i := length pre). set (m := i - 1 - Nat.max 0 (i - 5)).
  rewrite (map_ext_in _ (fun k => nth k (rev pre) [])).
  - rewrite map_nth_seq by (rewrite length_rev; fold i; lia).
    rewrite removelast_firstn_len, firstn_firstn, length_rev. fold i.
    f_equal. lia.
  - intros k Hk. apply in_seq in Hk. unfold get.
    rewrite app_nth1 by (fold i; lia).
    rewrite rev_nth by (fold i; lia). fold i. f_equal. lia.
Qed.

Lemma prev_nonblank_lines (pre rest : list str) :
  prev_nonblank (pre ++ rest) (length pre) =
  match rev pre with
  | pv :: _ => negb (eqb_str (strip pv) [])
  | [] => false
  end.
Proof.
  unfold prev_nonblank. destruct pre as [|x pre] using rev_ind; [reflexivity|].
  rewrite rev_app_distr, length_app. simpl.
  replace (0 <? length pre + 1) with true by (symmetry; apply Nat.ltb_lt; lia).
  replace (length pre + 1 - 1) with (length pre) by lia.
  rewrite <- app_assoc. simpl. rewrite get_here. reflexivity.
Qed.

Lemma rs_decision (pre : list str) (l : str) (after : list str) :
  inserts_before_return (pre ++ l :: after) (length pre) =
  rs_insert (rev pre) l after.
Proof.
  unfold inserts_before_return, rs_insert, in_function, is_last_statement.
  rewrite get_here, get_next, has_next, prev_nonblank_lines,
    in_function_scan_map, scan_window.
  destruct after; reflexivity.
Qed.

Lemma rs_body_decision (lines : list str) (i : nat) (result : list str) :
  rs_body lines i result =
  result ++ (if inserts_before_return lines i then [[]; get lines i]
             else [get lines i]).
Proof.
  unfold rs_body, inserts_before_return.
  destruct (is_return_stmt (strip (get lines i))); [|reflexivity].
  destruct (prev_nonblank lines i); [|reflexivity].
  destruct (in_function lines i && negb (is_last_statement lines i)) eqn:E;
    simpl; rewrite E; [|reflexivity].
  rewrite removelast_last, <- app_assoc. reflexivity.
Qed.

Lemma rs_loop_lines (pre rest result : list str) :
  rs_loop (pre ++ rest) (length rest) (length pre) result =
  result ++ rs_lines (rev pre) rest.
Proof.
  revert pre result; induction rest as [|l after IH]; intros pre result.
  - simpl. rewrite app_nil_r. reflexivity.
  - simpl rs_loop. rewrite rs_body_decision, rs_decision, get_here.
    replace (pre ++ l :: after) with ((pre ++ [l]) ++ after)
      by (rewrite <- app_assoc; reflexivity).
    replace (length pre + 1) with (length (pre ++ [l]))
      by (rewrite length_app; simpl; lia).
    rewrite IH, rev_app_distr. simpl.
    destruct (rs_insert (rev pre) l after); rewrite <- app_assoc; reflexivity.
Qed.

Lemma fix_return_spacing_lines (content : str) :
  fix_return_spacing content = join_nl (rs_lines [] (split_nl content)).
Proof.
  unfold fix_return_spacing.
  exact (f_equal join_nl (rs_loop_lines [] (split_nl content) [])).
Qed.

(** ** The spacing passes on lines *)

Lemma brace_not_return (s : str) :
  eqb_str s RBRACE = true -> is_return_stmt s = false.
Proof. intros H. apply eqb_str_eq in H. subst s. reflexivity. Qed.

Lemma fs_insert_before_blank (l : str) (after : list str) :
  fs_insert l ([] :: after) = false.
Proof. unfold fs_insert. apply andb_false_r. Qed.

Lemma fs_insert_head (l : str) (a1 a2 : list str) :
  hd_error a1 = hd_error a2 -> fs_insert l a1 = fs_insert l a2.
Proof.
  unfold fs_insert. destruct a1, a2; simpl; intros H;
    try discriminate; try reflexivity.
  injection H as ->. reflexivity.
Qed.

Lemma fs_lines_head (ls : list str) : hd_error (fs_lines ls) = hd_error ls.
Proof.
  destruct ls as [|l after]; [reflexivity|].
  simpl. destruct (fs_insert l after); reflexivity.
Qed.

Lemma fs_lines_spaced (ls : list str) : spaced (fs_lines ls).
Proof.
  induction ls as [|l after IH]; [exact I|].
  simpl. destruct (fs_insert l after) eqn:E; simpl.
  - split; [apply fs_insert_before_blank|]. split; [reflexivity | exact IH].
  - split; [|exact IH].
    rewrite (fs_insert_head l _ after (fs_lines_head after)). exact E.
Qed.

Lemma fs_lines_fixed (ls : list str) : spaced ls -> fs_lines ls = ls.
Proof.
  induction ls as [|l after IH]; [reflexivity|].
  simpl. intros [E H]. rewrite E, (IH H). reflexivity.
Qed.

Lemma rs_lines_head (before ls : list str) :
  hd_error (rs_lines before ls) = hd_error ls
  \/ hd_error (rs_lines before ls) = Some [].
Proof.
  destruct ls as [|l after]; [left; reflexivity|].
  simpl. destruct (rs_insert before l after); [right | left]; reflexivity.
Qed.

Lemma fs_insert_after_rs (l : str) (before after : list str) :
  fs_insert l after = false -> fs_insert l (rs_lines before after) = false.
Proof.
  intros H. destruct (rs_lines_head before after) as [E|E].
  - rewrite (fs_insert_head l _ after E). exact H.
  - destruct (rs_lines before after) as [|x xs]; [discriminate|].
    injection E as ->. apply fs_insert_before_blank.
Qed.

Lemma rs_lines_spaced (before ls : list str) :
  spaced ls -> spaced (rs_lines before ls).
Proof.
  revert before; induction ls as [|l after IH]; intros before H; [exact I|].
  destruct H as [E H]. simpl.
  destruct (rs_insert before l after); simpl; repeat split;
    auto using fs_insert_after_rs.
Qed.

(** A property of lines that holds of the blank line is kept by both
    spacing passes. *)
Lemma fs_lines_Forall (P : str -> Prop) (ls : list str) :
  P [] -> Forall P ls -> Forall P (fs_lines ls).
Proof.
  intros H0 H; induction H as [|l after Hl _ IH]; simpl; [constructor|].
  destruct (fs_insert l after); repeat constructor; assumption.
Qed.

Lemma rs_lines_Forall (P : str -> Prop) (before ls : list str) :
  P [] -> Forall P ls -> Forall P (rs_lines before ls).
Proof.
  intros H0 H; revert before; induction H as [|l after Hl _ IH];
    intros before; simpl; [constructor|].
  destruct (rs_insert before l after); repeat constructor; auto.
Qed.

Lemma fs_lines_length (ls : list str) : length ls <= length (fs_lines ls).
Proof.
  induction ls as [|l after IH]; simpl; [lia|].
  destruct (fs_insert l after); simpl; lia.
Qed.

Lemma rs_lines_length (before ls : list str) :
  length ls <= length (rs_lines before ls).
Proof.
  revert before; induction ls as [|l after IH]; intros before; simpl; [lia|].
  specialize (IH (l :: before)).
  destruct (rs_insert before l after); simpl; lia.
Qed.

Lemma fs_lines_nonempty (ls : list str) : ls <> [] -> fs_lines ls <> [].
Proof.
  intros H E. pose proof (fs_lines_length ls) as Hl. rewrite E in Hl.
  destruct ls; [congruence | simpl in Hl; lia].
Qed.

Lemma rs_lines_nonempty (before ls : list str) :
  ls <> [] -> rs_lines before ls <> [].
Proof.
  intros H E. pose proof (rs_lines_length before ls) as Hl. rewrite E in Hl.
  destruct ls; [congruence | simpl in Hl; lia].
Qed.

Lemma padded_nonempty (p p' : list str) : padded p p' -> p <> [] -> p' <> [].
Proof. intros H; destruct H; intros Hp; congruence. Qed.

Lemma brace_scan_more (q : list str) (n : nat) :
  brace_scan (firstn n q) = true -> brace_scan (firstn (S n) q) = true.
Proof.
  revert n; induction q as [|l q IH]; intros n H.
  - rewrite firstn_nil in H. discriminate.
  - destruct n as [|n]; [discriminate|].
    rewrite firstn_cons in *. simpl brace_scan in *.
    destruct (eqb_str (strip l) RBRACE); [discriminate|].
    destruct (eqb_str (strip l) LBRACE); [reflexivity|].
    apply IH; exact H.
Qed.

Lemma removelast_cons (l : str) (p : list str) :
  p <> [] -> removelast (l :: p) = l :: removelast p.
Proof. destruct p; [congruence | reflexivity]. Qed.

(** Blank lines only push an opening brace further away. *)
Lemma brace_scan_padded (p p' : list str) :
  padded p p' -> forall n,
  brace_scan (firstn n (removelast p')) = true ->
  brace_scan (firstn n (removelast p)) = true.
Proof.
  induction 1 as [|l p p' Hp IH|l p p' Hne Hp IH]; intros n H.
  - exact H.
  - destruct p as [|x p].
    + inversion Hp; subst. exact H.
    + assert (Hne' : p' <> []) by (apply (padded_nonempty _ _ Hp); discriminate).
      rewrite removelast_cons in * by (assumption || discriminate).
      destruct n as [|n]; [discriminate|].
      rewrite firstn_cons in *. simpl brace_scan in *.
      destruct (eqb_str (strip l) RBRACE); [discriminate|].
      destruct (eqb_str (strip l) LBRACE); [reflexivity|].
      apply IH; exact H.
  - assert (Hne' : p' <> []) by (apply (padded_nonempty _ _ Hp); assumption).
    rewrite (removelast_cons l _ Hne).
    rewrite removelast_cons in H by discriminate.
    rewrite removelast_cons in H by assumption.
    destruct n as [|n]; [discriminate|].
    rewrite firstn_cons in *. simpl brace_scan in *.
    destruct (eqb_str (strip l) RBRACE); [discriminate|].
    destruct (eqb_str (strip l) LBRACE); [reflexivity|].
    destruct n as [|n]; [discriminate|].
    rewrite firstn_cons in H. apply brace_scan_more, IH. exact H.
Qed.

Lemma rs_insert_after_blank (before : list str) (l : str) (after : list str) :
  rs_insert ([] :: before) l after = false.
Proof.
  unfold rs_insert. destruct (is_return_stmt (strip l)); reflexivity.
Qed.

Lemma rs_insert_before (l : str) (after : list str) :
  rs_insert [] l after = false.
Proof.
  unfold rs_insert. destruct (is_return_stmt (strip l)); reflexivity.
Qed.

(** What follows a line in the output of the pass trims to a closing brace
    exactly when what followed it in the input does. *)
Lemma next_brace_rs (before after : list str) :
  match rs_lines before after with
  | nx :: _ => eqb_str (strip nx) RBRACE
  | [] => false
  end =
  match after with
  | nx :: _ => eqb_str (strip nx) RBRACE
  | [] => false
  end.
Proof.
  destruct after as [|l2 a2]; [reflexivity|]. simpl.
  destruct (rs_insert before l2 a2) eqn:E; [|reflexivity].
  destruct (eqb_str (strip l2) RBRACE) eqn:B; [|reflexivity].
  unfold rs_insert in E. rewrite (brace_not_return _ B) in E. discriminate.
Qed.

Lemma rs_insert_padded (p p' : list str) (l : str) (after : list str) :
  padded p p' ->
  rs_insert p' l (rs_lines (l :: p) after) = true ->
  rs_insert p l after = true.
Proof.
  intros Hp. unfold rs_insert. rewrite next_brace_rs.
  intros H. apply andb_true_iff in H as [H H4].
  apply andb_true_iff in H as [H H3]. apply andb_true_iff in H as [H1 H2].
  rewrite H1, H4, (brace_scan_padded _ _ Hp _ H3).
  destruct Hp; [discriminate | |]; rewrite H2; reflexivity.
Qed.

Lemma rs_lines_again (ls p p' : list str) :
  padded p p' -> rs_lines p' (rs_lines p ls) = rs_lines p ls.
Proof.
  revert p p'; induction ls as [|l after IH]; intros p p' Hp; [reflexivity|].
  simpl. destruct (rs_insert p l after) eqn:E.
  - simpl. rewrite rs_insert_after_blank.
    f_equal. f_equal. apply IH. apply padded_blank; [|exact Hp].
    intros ->. rewrite rs_insert_before in E. discriminate.
  - simpl. destruct (rs_insert p' l (rs_lines (l :: p) after)) eqn:E'.
    + rewrite (rs_insert_padded _ _ _ _ Hp E') in E. discriminate.
    + f_equal. apply IH. apply padded_keep; exact Hp.
Qed.

Lemma rs_lines_idem (ls : list str) :
  rs_lines [] (rs_lines [] ls) = rs_lines [] ls.
Proof. apply rs_lines_again. constructor. Qed.

(** ** The banner patterns *)

Lemma no_slash_app (a b : str) : no_slash (a ++ b) = no_slash a && no_slash b.
Proof. apply forallb_app. Qed.

Lemma banner_re_one (kw : str) : existsb is_one (banner_re kw) = true.
Proof. reflexivity. Qed.

Lemma avoids_lit (w : str) (q : regex) :
  no_newline w = true -> avoids_newline q = true ->
  avoids_newline (lit w ++ q) = true.
Proof.
  intros Hw Hq; induction w as [|c w IH]; [exact Hq|].
  change (negb (c =? NL)%N && no_newline w = true) in Hw.
  change (negb (NL =? c)%N && avoids_newline (lit w ++ q) = true).
  apply andb_true_iff in Hw as [Hc Hw].
  rewrite (IH Hw), andb_true_r, N.eqb_sym. exact Hc.
Qed.

Lemma banner_re_line (kw : str) :
  no_newline kw = true -> avoids_newline (banner_re kw) = true.
Proof.
  intros H. unfold banner_re.
  apply avoids_lit; [reflexivity|].
  change (avoids_newline (lit kw ++ Star CDot :: lit CLOSE) = true).
  apply avoids_lit; [exact H | reflexivity].
Qed.

Lemma match_lit_end (w s r : str) : match_here (lit w) s = Some r -> s = w ++ r.
Proof.
  intros H. rewrite <- (app_nil_r (lit w)) in H.
  apply match_lit_inv in H as (s' & -> & H). simpl in H. congruence.
Qed.

Lemma match_lit_end_none (w s : str) :
  startswith s w = false -> match_here (lit w) s = None.
Proof.
  intros H. rewrite <- (app_nil_r (lit w)). apply match_lit_none; exact H.
Qed.

Lemma match_lit_end_some (w s : str) :
  match_here (lit w) s = None -> startswith s w = false.
Proof.
  intros H. destruct (startswith s w) eqn:E; [|reflexivity].
  apply startswith_split in E as [t ->].
  rewrite <- (app_nil_r (lit w)), match_lit_app in H. discriminate.
Qed.

(** [.*\*/] finds nothing where there is no [*/]... *)
Lemma close_none (v : str) :
  contains CLOSE v = false -> match_here close_re v = None.
Proof.
  unfold close_re. induction v as [|a v IH]; intros H; [reflexivity|].
  rewrite match_star_cons, (IH (contains_tail _ _ _ H)).
  rewrite (match_lit_end_none CLOSE (a :: v) (contains_head _ _ H)).
  destruct (cls_match CDot a); reflexivity.
Qed.

(** ...and only there, on one line. *)
Lemma close_none_inv (v : str) :
  no_newline v = true -> match_here close_re v = None ->
  contains CLOSE v = false.
Proof.
  unfold close_re. induction v as [|a v IH]; intros Hv H; [reflexivity|].
  simpl in Hv. apply andb_true_iff in Hv as [Ha Hv].
  rewrite match_star_cons in H.
  change (cls_match CDot a) with (negb (a =? NL)%N) in H. rewrite Ha in H.
  destruct (match_here (Star CDot :: lit CLOSE) v) eqn:E; [discriminate|].
  rewrite contains_cons, (match_lit_end_some _ _ H), (IH Hv eq_refl).
  reflexivity.
Qed.

(** It stops at the last [*/] of the line. *)
Lemma close_rest (v r : str) :
  no_newline v = true -> match_here close_re v = Some r ->
  contains CLOSE r = false.
Proof.
  unfold close_re. induction v as [|a v IH]; intros Hv H; [discriminate|].
  simpl in Hv. apply andb_true_iff in Hv as [Ha Hv].
  rewrite match_star_cons in H.
  change (cls_match CDot a) with (negb (a =? NL)%N) in H. rewrite Ha in H.
  destruct (match_here (Star CDot :: lit CLOSE) v) eqn:E.
  - injection H as ->. apply (IH Hv eq_refl).
  - apply match_lit_end in H. unfold CLOSE in H. simpl in H.
    injection H as -> ->.
    apply (contains_tail CLOSE 47%N). apply (close_none_inv _ Hv E).
Qed.

Lemma close_last (x suf : str) :
  no_newline x = true -> contains CLOSE suf = false ->
  match_here close_re (x ++ CLOSE ++ suf) = Some suf.
Proof.
  intros Hx Hs. unfold close_re. apply star_prefer; [exact Hx|].
  unfold CLOSE at 2. simpl app. rewrite match_star_cons. simpl cls_match.
  fold close_re. rewrite close_none.
  - unfold CLOSE. simpl. reflexivity.
  - rewrite contains_cons, Hs. reflexivity.
Qed.

(** The shape of a match of [/\*.*KEYWORD.*\*/]. *)
Lemma banner_match_inv (kw s r : str) :
  match_here (banner_re kw) s = Some r ->
  exists u v, s = OPEN ++ u ++ kw ++ v
              /\ no_newline u = true
              /\ match_here close_re v = Some r.
Proof.
  unfold banner_re. intros H.
  apply match_lit_inv in H as (s1 & -> & H).
  apply star_sound in H as (u & v1 & -> & Hu & H).
  apply match_lit_inv in H as (v & -> & H).
  exists u, v. auto.
Qed.

Lemma banner_match_open (kw s r : str) :
  match_here (banner_re kw) s = Some r -> startswith s OPEN = true.
Proof.
  intros H. apply banner_match_inv in H as (u & v & -> & _).
  apply startswith_app.
Qed.

Lemma banner_no_open (kw s : str) :
  startswith s OPEN = false -> match_here (banner_re kw) s = None.
Proof.
  intros H. destruct (match_here (banner_re kw) s) eqn:E; [|reflexivity].
  rewrite (banner_match_open _ _ _ E) in H. discriminate.
Qed.

Lemma banner_match_kw (kw s r : str) :
  match_here (banner_re kw) s = Some r -> contains kw s = true.
Proof.
  intros H. apply banner_match_inv in H as (u & v & -> & _).
  rewrite app_assoc. apply contains_mid.
Qed.

Lemma banner_no_kw (kw s : str) :
  contains kw s = false -> match_here (banner_re kw) s = None.
Proof.
  intros H. destruct (match_here (banner_re kw) s) eqn:E; [|reflexivity].
  rewrite (banner_match_kw _ _ _ E) in H. discriminate.
Qed.

Lemma banner_no_close (kw s : str) :
  contains CLOSE s = false -> match_here (banner_re kw) s = None.
Proof.
  intros H. destruct (match_here (banner_re kw) s) eqn:E; [|reflexivity].
  apply banner_match_inv in E as (u & v & -> & _ & E).
  rewrite !app_assoc in H. apply contains_suffix in H.
  rewrite (close_none _ H) in E. discriminate.
Qed.

Lemma banner_match_rest (kw s r : str) :
  no_newline s = true -> match_here (banner_re kw) s = Some r ->
  contains CLOSE r = false.
Proof.
  intros Hs H. apply banner_match_inv in H as (u & v & -> & _ & H).
  rewrite !no_newline_app in Hs.
  apply andb_true_iff in Hs as [_ Hs]. apply andb_true_iff in Hs as [_ Hs].
  apply andb_true_iff in Hs as [_ Hs].
  apply (close_rest v r Hs H).
Qed.

(** A comment opener further to the left matches as well. *)
Lemma banner_match_left (kw x s r : str) :
  no_newline x = true ->
  match_here (banner_re kw) s = Some r ->
  match_here (banner_re kw) (OPEN ++ x ++ s) = Some r.
Proof.
  unfold banner_re. intros Hx H.
  apply match_lit_inv in H as (s1 & -> & H).
  rewrite match_lit_app, app_assoc.
  apply star_prefer; [|exact H].
  change (no_newline (x ++ OPEN) = true).
  rewrite no_newline_app, Hx. reflexivity.
Qed.

(** ** One rule on one line *)

Section Rule.

Variables (kw b : str).

Lemma sub_no_close (s : str) :
  contains CLOSE s = false -> re_sub (banner_re kw) b s = s.
Proof.
  induction s as [|a s IH]; intros H.
  - apply re_sub_nil, banner_re_one.
  - rewrite re_sub_skip by (apply banner_no_close; exact H).
    rewrite (IH (contains_tail _ _ _ H)). reflexivity.
Qed.

Lemma sub_no_kw (s : str) :
  contains kw s = false -> re_sub (banner_re kw) b s = s.
Proof.
  induction s as [|a s IH]; intros H.
  - apply re_sub_nil, banner_re_one.
  - rewrite re_sub_skip by (apply banner_no_kw; exact H).
    rewrite (IH (contains_tail _ _ _ H)). reflexivity.
Qed.

(** On a line the rule either finds nothing, or rewrites the span from the
    first comment opener that has the keyword and a closer after it to the
    last closer of the line. *)
Lemma sub_line_form (l : str) :
  no_newline l = true ->
  re_sub (banner_re kw) b l = l
  \/ exists pre at_ r,
       l = pre ++ at_
       /\ match_here (banner_re kw) at_ = Some r
       /\ re_sub (banner_re kw) b l = pre ++ b ++ r
       /\ contains OPEN pre = false.
Proof.
  induction l as [|a l IH]; intros Hl.
  - left. apply re_sub_nil, banner_re_one.
  - destruct (match_here (banner_re kw) (a :: l)) as [r|] eqn:E.
    + right. exists [], (a :: l), r. repeat split; [exact E|].
      rewrite (re_sub_match _ _ (banner_re_one kw) _ _ E).
      rewrite sub_no_close; [reflexivity|].
      apply (banner_match_rest _ _ _ Hl E).
    + rewrite (re_sub_skip _ _ _ _ E).
      pose proof Hl as Hl'. simpl in Hl'.
      apply andb_true_iff in Hl' as [_ Hl'].
      destruct (IH Hl') as [H|(pre & at_ & r & -> & Hm & Hs & Hp)].
      * left. rewrite H. reflexivity.
      * right. exists (a :: pre), at_, r. repeat split; [exact Hm | |].
        { rewrite Hs. reflexivity. }
        rewrite contains_cons, Hp, orb_false_r.
        destruct (startswith (a :: pre) OPEN) eqn:Es; [|reflexivity].
        apply startswith_split in Es as [x Hx].
        change (a :: pre ++ at_) with ((a :: pre) ++ at_) in E, Hl.
        rewrite Hx in E, Hl. rewrite <- app_assoc in E.
        rewrite (banner_match_left kw x at_ r) in E; [discriminate | | exact Hm].
        rewrite !no_newline_app in Hl.
        apply andb_true_iff in Hl as [Hl _].
        apply andb_true_iff in Hl as [_ Hl]. exact Hl.
Qed.

End Rule.

(** ** A banner on a line is left alone by every rule *)

Lemma suffix_two (x y z : str) (c1 c2 : char) :
  x ++ [c1; c2] = y ++ z ->
  z = [] \/ z = [c2] \/ exists z', z = z' ++ [c1; c2].
Proof.
  intros H. destruct z as [|c z _] using rev_ind; [left; reflexivity|].
  right. destruct z as [|d z _] using rev_ind.
  - left. change (x ++ [c1; c2]) with (x ++ [c1] ++ [c2]) in H.
    rewrite app_assoc in H. simpl in H.
    apply app_inj_tail in H as [_ ->]. reflexivity.
  - right. exists z.
    change (x ++ [c1; c2]) with (x ++ [c1] ++ [c2]) in H.
    rewrite !app_assoc in H.
    apply app_inj_tail in H as [H ->].
    apply app_inj_tail in H as [_ ->].
    rewrite <- app_assoc. reflexivity.
Qed.

Section Settle.

Variables (kw' b' body : str).
Hypothesis body_no_slash : no_slash body = true.
Hypothesis body_line : no_newline body = true.
Hypothesis other_banner :
  contains kw' (OPEN ++ body ++ CLOSE) = true -> b' = OPEN ++ body ++ CLOSE.

Lemma skip_pre (pre t : str) :
  contains OPEN pre = false ->
  re_sub (banner_re kw') b' (pre ++ OPEN ++ t) =
  pre ++ re_sub (banner_re kw') b' (OPEN ++ t).
Proof.
  induction pre as [|a pre IH]; intros H; [reflexivity|].
  rewrite <- !app_comm_cons, re_sub_skip.
  - rewrite (IH (contains_tail _ _ _ H)). reflexivity.
  - apply banner_no_open. apply contains_head in H.
    destruct pre as [|c pre]; [|exact H].
    unfold OPEN. simpl. apply andb_false_r.
Qed.

Lemma skip_no_slash (t w : str) :
  no_slash t = true -> contains CLOSE w = false ->
  re_sub (banner_re kw') b' (t ++ w) = t ++ w.
Proof.
  intros Ht Hw; induction t as [|a t IH]; [apply sub_no_close; exact Hw|].
  simpl in Ht. apply andb_true_iff in Ht as [Ha Ht].
  simpl app. rewrite re_sub_skip, (IH Ht); [reflexivity|].
  apply banner_no_open. unfold OPEN. simpl.
  apply negb_true_iff in Ha. rewrite Ha. reflexivity.
Qed.

Lemma banner_fixed (r : str) :
  no_newline r = true -> contains CLOSE r = false ->
  re_sub (banner_re kw') b' (OPEN ++ body ++ CLOSE ++ r) =
  OPEN ++ body ++ CLOSE ++ r.
Proof.
  intros Hr Hc.
  assert (Hc' : contains CLOSE (47%N :: r) = false)
    by (rewrite contains_cons, Hc; reflexivity).
  destruct (match_here (banner_re kw') (OPEN ++ body ++ CLOSE ++ r))
    as [r'|] eqn:E.
  - rewrite (re_sub_match _ _ (banner_re_one kw') _ _ E).
    apply banner_match_inv in E as (u & v & Heq & Hu & Hv).
    apply app_inv_head in Heq. rewrite !app_assoc in Heq.
    apply app_eq_app in Heq as [z [[H1 H2]|[H1 H2]]].
    + (* the closer found lies in the banner or after it *)
      subst v. destruct (suffix_two _ _ _ _ _ H1) as [->|[->|[z' ->]]].
      * change ([] ++ r) with r in Hv.
        rewrite (close_none _ Hc) in Hv. discriminate.
      * change ([47%N] ++ r) with (47%N :: r) in Hv.
        rewrite (close_none _ Hc') in Hv. discriminate.
      * assert (Hz : no_newline z' = true).
        { apply (f_equal no_newline) in H1.
          rewrite !no_newline_app, body_line in H1. simpl in H1.
          symmetry in H1. apply andb_true_iff in H1 as [_ H1].
          apply andb_true_iff in H1 as [H1 _]. exact H1. }
        change [42%N; 47%N] with CLOSE in Hv, H1.
        rewrite <- app_assoc, (close_last _ _ Hz Hc) in Hv.
        injection Hv as <-.
        rewrite sub_no_close by exact Hc.
        rewrite other_banner; [rewrite <- !app_assoc; reflexivity|].
        rewrite H1, <- (app_assoc u), (app_assoc OPEN u).
        apply contains_mid.
    + subst r. apply contains_suffix in Hc.
      rewrite (close_none _ Hc) in Hv. discriminate.
  - unfold OPEN at 1 2. cbn [app].
    rewrite re_sub_skip by exact E. f_equal.
    assert (Hns : no_slash (42%N :: body ++ [42%N]) = true).
    { change (no_slash ([42%N] ++ body ++ [42%N]) = true).
      rewrite !no_slash_app, body_no_slash. reflexivity. }
    pose proof (skip_no_slash (42%N :: body ++ [42%N]) (47%N :: r) Hns Hc')
      as Hk.
    rewrite <- !app_comm_cons, <- !app_assoc in Hk. exact Hk.
Qed.

End Settle.

(** ** The table of rules *)

Lemma replacements_rules : Forall is_rule replacements.
Proof.
  unfold replacements.
  repeat constructor; eexists; (split; [reflexivity|]);
    vm_compute; repeat split.
Qed.

Lemma fcs_fold (content : str) :
  fix_comment_separators content = fold_left apply_rule replacements content.
Proof. reflexivity. Qed.

Lemma banner_ok_shape (b : str) :
  banner_ok b = true ->
  b = OPEN ++ body_of b ++ CLOSE
  /\ no_slash (body_of b) = true /\ no_newline (body_of b) = true.
Proof.
  unfold banner_ok. intros H.
  apply andb_true_iff in H as [H H3]. apply andb_true_iff in H as [H1 H2].
  apply eqb_str_eq in H1. auto.
Qed.

Lemma banner_ok_line (b : str) : banner_ok b = true -> no_newline b = true.
Proof.
  intros H. apply banner_ok_shape in H as (Hb & _ & H).
  rewrite Hb, !no_newline_app, H. reflexivity.
Qed.

Lemma rule_settles (rk : regex * str) (pre r : str) :
  In rk replacements ->
  contains OPEN pre = false ->
  no_newline r = true -> contains CLOSE r = false ->
  settled (pre ++ snd rk ++ r).
Proof.
  intros Hk Hpre Hr Hc. apply Forall_forall. intros [p' b'] Hin.
  pose proof replacements_rules as HR. rewrite Forall_forall in HR.
  destruct (HR _ Hk) as (_ & _ & _ & Hok & _).
  destruct (HR _ Hin) as (kw' & Hp' & _ & _ & Hdis).
  cbn [fst snd] in Hp', Hdis. subst p'. unfold apply_rule.
  rewrite forallb_forall in Hdis. specialize (Hdis _ Hk).
  destruct rk as [pk bk]. cbn [snd] in *.
  apply banner_ok_shape in Hok as (Hb & Hns & Hnl).
  remember (body_of bk) as body eqn:Hbody. clear Hbody. subst bk.
  assert (Hother : contains kw' (OPEN ++ body ++ CLOSE) = true ->
                   b' = OPEN ++ body ++ CLOSE).
  { intros Hc'. rewrite Hc' in Hdis. cbn [implb] in Hdis.
    apply eqb_str_eq in Hdis. exact Hdis. }
  rewrite <- !app_assoc.
  rewrite skip_pre by exact Hpre.
  rewrite (banner_fixed kw' b' body Hns Hnl Hother r Hr Hc). reflexivity.
Qed.

Lemma fold_settled (rs : list (regex * str)) (l : str) :
  incl rs replacements -> settled l -> fold_left apply_rule rs l = l.
Proof.
  intros Hrs Hl. unfold settled in Hl. rewrite Forall_forall in Hl.
  induction rs as [|r rs IH]; [reflexivity|].
  simpl. rewrite (Hl r) by (apply Hrs; left; reflexivity).
  apply IH. intros x Hx. apply Hrs. right. exact Hx.
Qed.

Lemma fold_settles (todo done : list (regex * str)) (l : str) :
  replacements = done ++ todo ->
  no_newline l = true ->
  Forall (fun r => apply_rule l r = l) done ->
  settled (fold_left apply_rule todo l).
Proof.
  revert done; induction todo as [|[p b] todo IH]; intros done Hsplit Hl Hdone.
  - simpl. unfold settled. rewrite Hsplit, app_nil_r. exact Hdone.
  - assert (Hin : In (p, b) replacements)
      by (rewrite Hsplit; apply in_or_app; right; left; reflexivity).
    pose proof replacements_rules as HR. rewrite Forall_forall in HR.
    destruct (HR _ Hin) as (kw & Hp & _ & _ & _). simpl in Hp. subst p.
    cbn [fold_left].
    change (apply_rule l (banner_re kw, b)) with (re_sub (banner_re kw) b l).
    destruct (sub_line_form kw b l Hl)
      as [Hsame|(pre & at_ & r & -> & Hm & Hs & Hpre)].
    + rewrite Hsame.
      apply (IH (done ++ [(banner_re kw, b)])).
      * rewrite <- app_assoc. exact Hsplit.
      * exact Hl.
      * apply Forall_app. split; [exact Hdone|].
        constructor; [exact Hsame | constructor].
    + rewrite Hs.
      rewrite no_newline_app in Hl. apply andb_true_iff in Hl as [_ Hat].
      assert (Hset : settled (pre ++ b ++ r)).
      { apply (rule_settles (banner_re kw, b) pre r Hin Hpre).
        - destruct (match_here_suffix _ _ _ Hm) as [m ->].
          rewrite no_newline_app in Hat.
          apply andb_true_iff in Hat as [_ Hat]. exact Hat.
        - apply (banner_match_rest kw at_ r Hat Hm). }
      rewrite fold_settled; [exact Hset | | exact Hset].
      intros x Hx. rewrite Hsplit. apply in_or_app. right. right. exact Hx.
Qed.

Lemma fcs_settled (l : str) :
  no_newline l = true -> settled (fix_comment_separators l).
Proof.
  intros Hl. rewrite fcs_fold.
  apply (fold_settles replacements [] l eq_refl Hl). constructor.
Qed.

(** The banner pass, run again on a line it has rewritten, changes
    nothing. *)
Lemma fcs_line_idem (l : str) :
  no_newline l = true ->
  fix_comment_separators (fix_comment_separators l) = fix_comment_separators l.
Proof.
  intros Hl. rewrite (fcs_fold (fix_comment_separators l)).
  apply fold_settled; [apply incl_refl | apply fcs_settled; exact Hl].
Qed.

Lemma fold_rules_join (rs : list (regex * str)) (ls : list str) :
  Forall is_rule rs ->
  fold_left apply_rule rs (join_nl ls) =
  join_nl (map (fold_left apply_rule rs) ls).
Proof.
  intros H; revert ls; induction H as [|[p b] rs Hr _ IH]; intros ls.
  - simpl. rewrite map_id. reflexivity.
  - destruct Hr as (kw & Hp & Hkw & _). simpl in Hp. subst p.
    cbn [fold_left].
    change (apply_rule (join_nl ls) (banner_re kw, b))
      with (re_sub (banner_re kw) b (join_nl ls)).
    rewrite re_sub_join by (apply banner_re_one || apply banner_re_line, Hkw).
    rewrite IH, map_map. reflexivity.
Qed.

Lemma fold_rules_line (rs : list (regex * str)) (l : str) :
  Forall is_rule rs -> no_newline l = true ->
  no_newline (fold_left apply_rule rs l) = true.
Proof.
  intros H; revert l; induction H as [|[p b] rs Hr _ IH]; intros l Hl.
  - exact Hl.
  - destruct Hr as (kw & Hp & Hkw & Hok & _). simpl in Hp, Hok. subst p.
    cbn [fold_left]. apply IH. unfold apply_rule.
    apply re_sub_no_newline;
      [apply banner_re_one | apply banner_ok_line, Hok | exact Hl].
Qed.

Lemma fcs_join (ls : list str) :
  fix_comment_separators (join_nl ls) =
  join_nl (map fix_comment_separators ls).
Proof. apply fold_rules_join, replacements_rules. Qed.

Lemma fcs_line (l : str) :
  no_newline l = true -> no_newline (fix_comment_separators l) = true.
Proof. apply fold_rules_line, replacements_rules. Qed.

Lemma map_lines (f : str -> str) (ls : list str) :
  (forall l, no_newline l = true -> no_newline (f l) = true) ->
  all_lines ls -> all_lines (map f ls).
Proof.
  intros Hf H; induction H; simpl; constructor; auto.
Qed.

(** The banner pass works line by line. *)
Lemma fcs_lines (content : str) :
  split_nl (fix_comment_separators content) =
  map fix_comment_separators (split_nl content).
Proof.
  rewrite <- (join_split content) at 1. rewrite fcs_join.
  apply split_join.
  - pose proof (split_nl_nonempty content). destruct (split_nl content);
      [congruence | discriminate].
  - apply map_lines; [exact fcs_line | apply split_nl_lines].
Qed.

(** ** The three passes together *)

Lemma split_nl_cons (content : str) : exists l ls, split_nl content = l :: ls.
Proof.
  pose proof (split_nl_nonempty content).
  destruct (split_nl content) as [|l ls]; [congruence | eauto].
Qed.

Lemma banner_lines_ok (content : str) :
  let ls := map fix_comment_separators (split_nl content) in
  ls <> [] /\ all_lines ls.
Proof.
  destruct (split_nl_cons content) as (l & ls & E). split.
  - rewrite E. discriminate.
  - apply map_lines; [exact fcs_line | apply split_nl_lines].
Qed.

Lemma apply_fixes_lines (content : str) :
  apply_fixes content = join_nl (fixed_lines content).
Proof.
  unfold apply_fixes, fixed_lines.
  destruct (banner_lines_ok content) as [Hne Hall].
  rewrite fix_return_spacing_lines, fix_function_spacing_lines, fcs_lines.
  rewrite split_join;
    [reflexivity | apply fs_lines_nonempty, Hne
     | apply fs_lines_Forall; [reflexivity | exact Hall]].
Qed.

Lemma fixed_lines_ok (content : str) :
  let ls := fixed_lines content in
  ls <> [] /\ all_lines ls /\ spaced ls
  /\ Forall (fun l => fix_comment_separators l = l) ls.
Proof.
  destruct (banner_lines_ok content) as [Hne Hall]. unfold fixed_lines.
  repeat split.
  - apply rs_lines_nonempty, fs_lines_nonempty, Hne.
  - apply rs_lines_Forall; [reflexivity|].
    apply fs_lines_Forall; [reflexivity | exact Hall].
  - apply rs_lines_spaced, fs_lines_spaced.
  - apply rs_lines_Forall; [reflexivity|].
    apply fs_lines_Forall; [reflexivity|].
    apply Forall_map. eapply Forall_impl; [|apply split_nl_lines].
    intros l Hl. apply fcs_line_idem, Hl.
Qed.

Lemma map_fixed (f : str -> str) (ls : list str) :
  Forall (fun l => f l = l) ls -> map f ls = ls.
Proof. induction 1 as [|l ls Hl _ IH]; simpl; congruence. Qed.

(** C1.  Running the three passes (banner, function spacing, return
    spacing) on their own output gives that output again. *)
Theorem apply_fixes_idempotent (content : str) :
  apply_fixes (apply_fixes content) = apply_fixes content.
Proof.
  rewrite (apply_fixes_lines content).
  destruct (fixed_lines_ok content) as (Hne & Hall & Hsp & Hfix).
  set (ls := fixed_lines content) in *.
  unfold apply_fixes.
  rewrite fcs_join, (map_fixed _ _ Hfix).
  rewrite fix_function_spacing_lines, (split_join _ Hne Hall),
    (fs_lines_fixed _ Hsp).
  rewrite fix_return_spacing_lines, (split_join _ Hne Hall).
  unfold ls, fixed_lines. rewrite rs_lines_idem. reflexivity.
Qed.

Lemma line_count_fcs (content : str) :
  line_count (fix_comment_separators content) = line_count content.
Proof. unfold line_count. rewrite fcs_lines. apply length_map. Qed.

Lemma line_count_join (ls : list str) :
  ls <> [] -> all_lines ls -> line_count (join_nl ls) = length ls.
Proof. intros Hne Hall. unfold line_count. rewrite split_join; auto. Qed.

Lemma line_count_ffs (content : str) :
  line_count content <= line_count (fix_function_spacing content).
Proof.
  rewrite fix_function_spacing_lines.
  destruct (split_nl_cons content) as (l & ls & E).
  rewrite line_count_join.
  - apply fs_lines_length.
  - apply fs_lines_nonempty. rewrite E. discriminate.
  - apply fs_lines_Forall; [reflexivity | apply split_nl_lines].
Qed.

Lemma line_count_frs (content : str) :
  line_count content <= line_count (fix_return_spacing content).
Proof.
  rewrite fix_return_spacing_lines.
  destruct (split_nl_cons content) as (l & ls & E).
  rewrite line_count_join.
  - apply rs_lines_length.
  - apply rs_lines_nonempty. rewrite E. discriminate.
  - apply rs_lines_Forall; [reflexivity | apply split_nl_lines].
Qed.

(** C6.  No pass lowers the number of lines of a text, and neither does
    their composition; the banner pass keeps it as it is. *)
Theorem line_count_monotone (content : str) :
  line_count content <= line_count (fix_comment_separators content)
  /\ line_count content <= line_count (fix_function_spacing content)
  /\ line_count content <= line_count (fix_return_spacing content)
  /\ line_count content <= line_count (apply_fixes content)
  /\ line_count (fix_comment_separators content) = line_count content.
Proof.
  repeat split.
  - rewrite line_count_fcs. apply Nat.le_refl.
  - apply line_count_ffs.
  - apply line_count_frs.
  - unfold apply_fixes.
    eapply Nat.le_trans; [|apply line_count_frs].
    eapply Nat.le_trans; [|apply line_count_ffs].
    rewrite line_count_fcs. apply Nat.le_refl.
  - apply line_count_fcs.
Qed.

(** ** The spacing decisions, line by line *)

Lemma fs_decision (pre : list str) (l : str) (after : list str) :
  inserts_after_brace (pre ++ l :: after) (length pre) = fs_insert l after.
Proof.
  unfold inserts_after_brace, fs_insert.
  rewrite get_here, get_next, has_next.
  destruct (eqb_str (strip l) RBRACE), after; reflexivity.
Qed.

Lemma snoc_app (pre : list str) (l : str) (after : list str) :
  pre ++ l :: after = (pre ++ [l]) ++ after.
Proof. rewrite <- app_assoc. reflexivity. Qed.

Lemma snoc_length (pre : list str) (l : str) :
  length (pre ++ [l]) = S (length pre).
Proof. rewrite length_app. simpl. lia. Qed.

Lemma fs_lines_index (pre rest : list str) :
  fs_lines rest =
  flat_map (fun i => if inserts_after_brace (pre ++ rest) i
                     then [get (pre ++ rest) i; []]
                     else [get (pre ++ rest) i])
           (seq (length pre) (length rest)).
Proof.
  revert pre; induction rest as [|l after IH]; intros pre; [reflexivity|].
  cbn [length seq flat_map fs_lines].
  rewrite fs_decision, get_here, (snoc_app pre l after), <- (snoc_length pre l), <- IH.
  destruct (fs_insert l after); reflexivity.
Qed.

Lemma rs_lines_index (pre rest : list str) :
  rs_lines (rev pre) rest =
  flat_map (fun i => if inserts_before_return (pre ++ rest) i
                     then [[]; get (pre ++ rest) i]
                     else [get (pre ++ rest) i])
           (seq (length pre) (length rest)).
Proof.
  revert pre; induction rest as [|l after IH]; intros pre; [reflexivity|].
  cbn [length seq flat_map rs_lines].
  rewrite rs_decision, get_here, (snoc_app pre l after), <- (snoc_length pre l), <- IH.
  rewrite rev_app_distr.
  destruct (rs_insert (rev pre) l after); reflexivity.
Qed.

Lemma split_ffs (content : str) :
  split_nl (fix_function_spacing content) = fs_lines (split_nl content).
Proof.
  rewrite fix_function_spacing_lines.
  destruct (split_nl_cons content) as (l & ls & E).
  apply split_join.
  - apply fs_lines_nonempty. rewrite E. discriminate.
  - apply fs_lines_Forall; [reflexivity | apply split_nl_lines].
Qed.

Lemma split_frs (content : str) :
  split_nl (fix_return_spacing content) = rs_lines [] (split_nl content).
Proof.
  rewrite fix_return_spacing_lines.
  destruct (split_nl_cons content) as (l & ls & E).
  apply split_join.
  - apply rs_lines_nonempty. rewrite E. discriminate.
  - apply rs_lines_Forall; [reflexivity | apply split_nl_lines].
Qed.

(** C4.  The output of [fix_return_spacing] is its input with one blank
    line put before each line [i] for which the pass decides so, and
    nothing else changed; it decides so exactly when line [i] is a return
    statement, the line before it exists and is not blank, the backward
    scan classifies it as inside a function, and the line after it does
    not trim to a closing brace.  A return that closes an [if] block is
    left as it is. *)
Theorem return_spacing_decision (content : str) :
  let lines := split_nl content in
  split_nl (fix_return_spacing content) =
    flat_map (fun i => if inserts_before_return lines i
                       then [[]; get lines i]
                       else [get lines i])
             (seq 0 (length lines))
  /\ (forall i,
        inserts_before_return lines i = true <->
        is_return_stmt (strip (get lines i)) = true
        /\ (0 < i /\ strip (get lines (i - 1)) <> [])
        /\ in_function lines i = true
        /\ ~ (i + 1 < length lines /\ strip (get lines (i + 1)) = RBRACE))
  /\ fix_return_spacing (py "if (x) {
    return 0;
}") = py "if (x) {
    return 0;
}".
Proof.
  cbv zeta. split; [|split].
  - rewrite split_frs. apply (rs_lines_index [] (split_nl content)).
  - intros i. unfold inserts_before_return, prev_nonblank, is_last_statement.
    rewrite !andb_true_iff, !negb_true_iff, Nat.ltb_lt, eqb_str_neq.
    destruct (Nat.ltb_spec (i + 1) (length (split_nl content))) as [Hlt|Hge].
    + rewrite eqb_str_neq. tauto.
    + split; [|tauto]. intros H. repeat split; try tauto. lia.
  - vm_compute. reflexivity.
Qed.

(** C5.  The output of [fix_function_spacing] is its input with one blank
    line put after each line [i] for which the pass decides so, and
    nothing else changed; it decides so exactly when line [i] trims to a
    closing brace, is not the last line, and the next line, trimmed,
    begins with the documentation-comment opener.  So a brace followed by
    a blank line, or ending the file, gets nothing, and a brace directly
    followed by the comment gets one blank line. *)
Theorem function_spacing_decision (content : str) :
  let lines := split_nl content in
  split_nl (fix_function_spacing content) =
    flat_map (fun i => if inserts_after_brace lines i
                       then [get lines i; []]
                       else [get lines i])
             (seq 0 (length lines))
  /\ (forall i,
        inserts_after_brace lines i = true <->
        strip (get lines i) = RBRACE
        /\ i + 1 < length lines
        /\ startswith (strip (get lines (i + 1))) DOC_OPEN = true)
  /\ (forall i, strip (get lines (i + 1)) = [] ->
                inserts_after_brace lines i = false)
  /\ (forall i, i + 1 = length lines -> inserts_after_brace lines i = false)
  /\ fix_function_spacing (py "}
/** doc */") = py "}

/** doc */"
  /\ fix_function_spacing (py "}

/** doc */") = py "}

/** doc */".
Proof.
  cbv zeta. split; [|split; [|split; [|split; [|split]]]].
  - rewrite split_ffs. apply (fs_lines_index [] (split_nl content)).
  - intros i. unfold inserts_after_brace.
    rewrite !andb_true_iff, Nat.ltb_lt, eqb_str_eq. tauto.
  - intros i H. unfold inserts_after_brace. rewrite H. apply andb_false_r.
  - intros i H. unfold inserts_after_brace.
    replace (i + 1 <? length (split_nl content)) with false
      by (symmetry; apply Nat.ltb_ge; lia).
    rewrite andb_false_r. reflexivity.
  - vm_compute. reflexivity.
  - vm_compute. reflexivity.
Qed.

(** ** The header-includes banner *)

Lemma keyword_of_banner_re (kw : str) : keyword_of (banner_re kw) = kw.
Proof.
  unfold keyword_of, banner_re. unfold OPEN. cbn [lit map app skipn].
  induction kw as [|c kw IH]; [reflexivity|].
  cbn [lit map app lit_prefix]. f_equal. exact IH.
Qed.

Example keywords_listed :
  keywords =
  [ py "头 文 件"; py "外部函数声明"; py "外部声明"; py "宏 定 义";
    py "类型定义"; py "全局变量"; py "模块变量"; py "前向声明";
    py "函数实现" ].
Proof. vm_compute. reflexivity. Qed.

(** A comment that spans its whole line and holds the keyword is matched
    from its first to its last character. *)
Lemma comment_match (kw a b : str) :
  no_newline kw = true -> no_newline a = true -> no_newline b = true ->
  match_here (banner_re kw) (OPEN ++ a ++ kw ++ b ++ CLOSE) = Some [].
Proof.
  intros Hkw Ha Hb.
  assert (Hlast : forall z, no_newline z = true ->
                            match_here close_re (z ++ CLOSE) = Some []).
  { intros z Hz. pose proof (close_last z [] Hz eq_refl) as Hk.
    rewrite app_nil_r in Hk. exact Hk. }
  assert (E : exists r, match_here (banner_re kw)
                          (OPEN ++ a ++ kw ++ b ++ CLOSE) = Some r).
  { unfold banner_re. rewrite match_lit_app.
    apply (star_complete CDot _ a _ []); [exact Ha|].
    rewrite match_lit_app. apply (Hlast b Hb). }
  destruct E as [r E]. rewrite E. f_equal.
  apply banner_match_inv in E as (u & v & Heq & Hu & Hv).
  apply app_inv_head in Heq.
  assert (Heq' : (a ++ kw ++ b) ++ [42%N; 47%N] = (u ++ kw) ++ v)
    by (rewrite <- !app_assoc; exact Heq).
  destruct (suffix_two _ _ _ _ _ Heq') as [->|[->|[z ->]]];
    [discriminate | discriminate |].
  assert (Hz : no_newline z = true).
  { assert (Hall : no_newline ((a ++ kw ++ b) ++ [42%N; 47%N]) = true)
      by (rewrite !no_newline_app, Ha, Hkw, Hb; reflexivity).
    rewrite Heq', !no_newline_app in Hall.
    apply andb_true_iff in Hall as [_ Hall].
    apply andb_true_iff in Hall as [Hall _]. exact Hall. }
  pose proof (Hlast z Hz) as Hk. unfold CLOSE in Hk. congruence.
Qed.

Lemma replacements_head :
  replacements = (banner_re HEADER_KEYWORD, HEADER_BANNER) :: tl replacements.
Proof. reflexivity. Qed.

Lemma header_banner_settled :
  fold_left apply_rule (tl replacements) HEADER_BANNER = HEADER_BANNER.
Proof. vm_compute. reflexivity. Qed.

Lemma fold_left_cons (rs : list (regex * str)) (r : regex * str) (x : str) :
  fold_left apply_rule (r :: rs) x = fold_left apply_rule rs (apply_rule x r).
Proof. reflexivity. Qed.

Lemma apply_rule_pair (x : str) (p : regex) (b : str) :
  apply_rule x (p, b) = re_sub p b x.
Proof. reflexivity. Qed.

Lemma header_comment (a b : str) :
  no_newline a = true -> no_newline b = true ->
  fix_comment_separators (OPEN ++ a ++ HEADER_KEYWORD ++ b ++ CLOSE) =
  HEADER_BANNER.
Proof.
  intros Ha Hb.
  rewrite fcs_fold, replacements_head, fold_left_cons, apply_rule_pair.
  rewrite (re_sub_match _ _ (banner_re_one _) _ _
             (comment_match HEADER_KEYWORD a b eq_refl Ha Hb)).
  rewrite re_sub_nil by apply banner_re_one.
  rewrite app_nil_r. exact header_banner_settled.
Qed.

Lemma forallb_map_comp (A B : Type) (f : B -> bool) (g : A -> B) (l : list A) :
  forallb f (map g l) = forallb (fun x => f (g x)) l.
Proof. induction l as [|x l IH]; simpl; [reflexivity | now rewrite IH]. Qed.

Lemma no_keyword_unchanged (rs : list (regex * str)) (content : str) :
  Forall is_rule rs ->
  forallb (fun r => negb (contains (keyword_of (fst r)) content)) rs = true ->
  fold_left apply_rule rs content = content.
Proof.
  intros H; induction H as [|[p b] rs Hr _ IH]; intros Hk; [reflexivity|].
  cbn [forallb fst] in Hk. apply andb_true_iff in Hk as [Hk Hks].
  destruct Hr as (kw & Hp & _). cbn [fst] in Hp. subst p.
  rewrite keyword_of_banner_re in Hk. apply negb_true_iff in Hk.
  cbn [fold_left]. unfold apply_rule at 2.
  rewrite (sub_no_kw kw b content Hk). apply IH, Hks.
Qed.

(** C2, as the code has it.  The keyword of a category is matched in the
    spelling of its pattern only.  A comment spanning one line that holds
    the header-includes keyword written with one space between its
    characters becomes the header-includes banner; a text that holds none
    of the nine keywords in the spelling of the patterns, such as that
    keyword written without spaces or with two, is returned as it is. *)
Theorem banner_keyword_spelling :
  (forall a b,
     no_newline a = true -> no_newline b = true ->
     fix_comment_separators
       (py "/*" ++ a ++ py "头 文 件" ++ b ++ py "*/") =
     py "/*************************** 头文件包含 ****************************/")
  /\ (forall content,
        forallb (fun kw => negb (contains kw content)) keywords = true ->
        fix_comment_separators content = content)
  /\ fix_comment_separators (py "/* 头文件 */") = py "/* 头文件 */"
  /\ fix_comment_separators (py "/* 头  文  件 */") = py "/* 头  文  件 */".
Proof.
  split; [|split; [|split]].
  - exact header_comment.
  - intros content H. rewrite fcs_fold.
    apply no_keyword_unchanged; [apply replacements_rules|].
    unfold keywords in H. rewrite forallb_map_comp in H. exact H.
  - vm_compute. reflexivity.
  - vm_compute. reflexivity.
Qed.

Lemma banner_keyword_spelling_witness :
  fix_comment_separators
    (py "/*" ++ py "****" ++ py "头 文 件" ++ py "****" ++ py "*/") =
  py "/*************************** 头文件包含 ****************************/"
  /\ fix_comment_separators (py "int x; /* 宏定义 */") =
     py "int x; /* 宏定义 */".
Proof.
  split.
  - apply (proj1 banner_keyword_spelling); reflexivity.
  - apply (proj1 (proj2 banner_keyword_spelling)); reflexivity.
Defined.

(** C2 as the specification words it does not hold: the keyword
    written without spaces inside a one-line comment is not replaced. *)
Lemma banner_keyword_unspaced :
  fix_comment_separators (py "/* 头文件 */") = py "/* 头文件 */"
  /\ fix_comment_separators (py "/* 头文件 */") <>
     py "/*************************** 头文件包含 ****************************/".
Proof. split; vm_compute; [reflexivity | discriminate]. Qed.

(** C8.  A comment spanning one line that holds [头 文 件] is replaced by
    the header-includes banner, character for character, and so byte for
    byte in the UTF-8 encoding the file is written in. *)
Theorem header_banner_exact (a b : str) :
  no_newline a = true -> no_newline b = true ->
  let out :=
    fix_comment_separators (py "/*" ++ a ++ py "头 文 件" ++ b ++ py "*/") in
  out =
    py "/*************************** 头文件包含 ****************************/"
  /\ utf8_encode out =
     bytes_of
       "/*************************** 头文件包含 ****************************/".
Proof.
  intros Ha Hb out.
  assert (E : out = HEADER_BANNER) by (apply header_comment; assumption).
  rewrite E. split; vm_compute; reflexivity.
Qed.

Lemma header_banner_exact_witness :
  let out :=
    fix_comment_separators
      (py "/*" ++ py "************************" ++ py "头 文 件"
         ++ py "******************************" ++ py "*/") in
  out =
    py "/*************************** 头文件包含 ****************************/"
  /\ utf8_encode out =
     bytes_of
       "/*************************** 头文件包含 ****************************/".
Proof.
  apply (header_banner_exact (py "************************")
           (py "******************************")); reflexivity.
Defined.

(** ** The backward scan *)

Lemma in_function_window (lines : list str) (i : nat) :
  i <= length lines ->
  in_function lines i =
  brace_scan (firstn 4 (removelast (rev (firstn i lines)))).
Proof.
  intros Hi. unfold in_function. rewrite in_function_scan_map.
  rewrite <- (firstn_skipn i lines) at 1.
  pose proof (scan_window (firstn i lines) (skipn i lines)) as H.
  rewrite length_firstn, Nat.min_l in H by exact Hi.
  rewrite H. reflexivity.
Qed.

(** Five lines or more into the file, the scan is the one the
    specification describes. *)
Lemma in_function_far (lines : list str) (i : nat) :
  5 <= i <= length lines -> in_function lines i = spec_in_function lines i.
Proof.
  intros [H5 Hi]. rewrite in_function_window by exact Hi.
  unfold spec_in_function.
  rewrite removelast_firstn_len, firstn_firstn, length_rev, length_firstn.
  f_equal. f_equal. lia.
Qed.

(** C3, at the input where the code departs from it.  With the opening
    brace on the first line of the file and the return two lines below,
    a backward scan of up to four lines meets the brace, but the scan of
    the code stops one line short of it: the return is classified as
    outside a function and the text is left as it is.  The scenario of
    the specification, without any brace, is left as it is too. *)
Theorem first_line_brace_missed :
  let content := py "{
foo();
return 1;
bar();" in
  spec_in_function (split_nl content) 2 = true
  /\ in_function (split_nl content) 2 = false
  /\ fix_return_spacing content = content
  /\ fix_return_spacing (py "foo();
return 1;
bar();") = py "foo();
return 1;
bar();".
Proof. cbv zeta. repeat split; vm_compute; reflexivity. Qed.

Lemma range_down_positive (start stop j : nat) :
  In j (range_down start stop) -> stop < j.
Proof.
  unfold range_down. rewrite in_map_iff. intros (k & <- & Hk).
  apply in_seq in Hk. lia.
Qed.

Lemma in_function_scan_ext (l1 l2 : list str) (js : list nat) :
  (forall j, In j js -> get l1 j = get l2 j) ->
  in_function_scan l1 js = in_function_scan l2 js.
Proof.
  induction js as [|j js IH]; intros H; [reflexivity|].
  simpl. rewrite (H j) by (left; reflexivity).
  rewrite IH; [reflexivity|]. intros k Hk. apply H. right. exact Hk.
Qed.

Lemma enclosing_open_bound (before : list str) (depth k : nat) :
  enclosing_open before depth = Some k -> k < length before.
Proof.
  revert depth k; induction before as [|l before IH]; intros depth k H;
    [discriminate|].
  simpl in H.
  assert (Hs : forall d, option_map S (enclosing_open before d) = Some k ->
                         k < length (l :: before)).
  { intros d Hd. destruct (enclosing_open before d) as [k'|] eqn:E;
      [|discriminate].
    injection Hd as <-. apply IH in E. simpl. lia. }
  destruct (eqb_str (strip l) RBRACE); [apply (Hs _ H)|].
  destruct (eqb_str (strip l) LBRACE); [|apply (Hs _ H)].
  destruct depth; [|apply (Hs _ H)].
  injection H as <-. simpl. lia.
Qed.

Lemma enclosing_open_cons (l : str) (before : list str) (depth : nat) :
  enclosing_open (l :: before) depth =
  if eqb_str (strip l) RBRACE then
    option_map S (enclosing_open before (S depth))
  else if eqb_str (strip l) LBRACE then
    match depth with
    | 0 => Some 0
    | S d => option_map S (enclosing_open before d)
    end
  else option_map S (enclosing_open before depth).
Proof. reflexivity. Qed.

(** When the enclosing brace is the farthest of the lines passed, no scan
    that leaves that line out finds it. *)
Lemma brace_scan_misses_last (q : list str) (n : nat) :
  enclosing_open q 0 = Some (length q - 1) ->
  brace_scan (firstn n (removelast q)) = false.
Proof.
  revert n; induction q as [|l q IH]; intros n H; [destruct n; reflexivity|].
  destruct q as [|x q]; [destruct n; reflexivity|].
  rewrite removelast_cons by discriminate.
  destruct n as [|n]; [reflexivity|].
  rewrite firstn_cons. simpl brace_scan. rewrite enclosing_open_cons in H.
  destruct (eqb_str (strip l) RBRACE); [reflexivity|].
  destruct (eqb_str (strip l) LBRACE).
  - exfalso. assert (Hk : 0 = length (l :: x :: q) - 1) by congruence.
    cbn [length] in Hk. lia.
  - apply IH.
    destruct (enclosing_open (x :: q) 0) as [k|]; [|discriminate].
    cbn [option_map] in H.
    assert (Hk : S k = length (l :: x :: q) - 1) by congruence.
    cbn [length] in *. f_equal. lia.
Qed.

(** C9.  The backward scan never reads the first line of the file: its
    range leaves index 0 out, so its verdict does not depend on that line.
    Hence when the brace enclosing a return is the first line of the file,
    the return is classified as outside a function and no blank line is
    put before it, as in the text [{], [foo();], [return 1;], [bar();]. *)
Theorem first_line_not_scanned :
  (forall i, ~ In 0 (range_down (i - 1) (Nat.max 0 (i - 5))))
  /\ (forall l0 l0' rest i,
        in_function (l0 :: rest) i = in_function (l0' :: rest) i)
  /\ (forall lines i,
        1 <= i -> i < length lines ->
        enclosing_brace lines i = Some 0 ->
        in_function lines i = false
        /\ inserts_before_return lines i = false)
  /\ fix_return_spacing (py "{
foo();
return 1;
bar();") = py "{
foo();
return 1;
bar();".
Proof.
  split; [|split; [|split]].
  - intros i H. apply range_down_positive in H. lia.
  - intros l0 l0' rest i. unfold in_function.
    apply in_function_scan_ext. intros j Hj.
    apply range_down_positive in Hj.
    destruct j as [|j]; [lia | reflexivity].
  - intros lines i H1 Hi He.
    assert (Hf : in_function lines i = false).
    { rewrite in_function_window by lia.
      apply brace_scan_misses_last.
      unfold enclosing_brace in He.
      destruct (enclosing_open (rev (firstn i lines)) 0) as [k|] eqn:E;
        [|discriminate].
      apply enclosing_open_bound in E as Hk.
      rewrite length_rev, length_firstn, Nat.min_l in * by lia.
      simpl in He. injection He as He. f_equal. lia. }
    split; [exact Hf|].
    unfold inserts_before_return. rewrite Hf.
    rewrite andb_false_r. reflexivity.
  - vm_compute. reflexivity.
Qed.

Lemma first_line_not_scanned_witness :
  let lines := split_nl (py "{
foo();
return 1;
bar();") in
  in_function lines 2 = false /\ inserts_before_return lines 2 = false.
Proof.
  cbv zeta.
  apply (proj1 (proj2 (proj2 first_line_not_scanned)));
    [vm_compute; lia | vm_compute; lia | vm_compute; reflexivity].
Defined.

(** ** Return statements *)

(** C10.  A line that begins with [return], then a whitespace character,
    and has a semicolon anywhere after it is a return statement for the
    pass, whatever follows the semicolon; and such a line gets a blank
    line before it when the other conditions hold. *)
Theorem return_with_trailing_text (c : char) (t1 t2 : str) :
  isspace c = true -> no_newline t1 = true ->
  is_return_stmt (py "return" ++ c :: t1 ++ py ";" ++ t2) = true
  /\ is_return_stmt (py "return 0; bar();") = true
  /\ fix_return_spacing (py "int f()
{
    foo();
    return 0; bar();
    baz();
}") = py "int f()
{
    foo();

    return 0; bar();
    baz();
}".
Proof.
  intros Hc Ht. split; [|split; vm_compute; reflexivity].
  unfold is_return_stmt, re_match, return_re.
  rewrite match_lit_app.
  change (plus CSpace ++ Star CDot :: lit (py ";"))
    with (One CSpace :: Star CSpace :: Star CDot :: lit (py ";")).
  rewrite match_one_cons.
  change (cls_match CSpace c) with (isspace c). rewrite Hc.
  destruct (star_complete CDot (lit (py ";")) t1 (py ";" ++ t2) t2 Ht)
    as [r Hr].
  { change (lit (py ";")) with (lit (py ";") ++ []).
    rewrite match_lit_app. reflexivity. }
  destruct (star_base CSpace _ _ _ Hr) as [r' Hr'].
  rewrite Hr'. reflexivity.
Qed.

Lemma return_with_trailing_text_witness :
  is_return_stmt (py "return" ++ 32%N :: py "0" ++ py ";" ++ py " bar();")
  = true.
Proof.
  apply (return_with_trailing_text 32%N (py "0") (py " bar();"));
    reflexivity.
Defined.

(** ** The driver *)

Lemma process_file_result (fs : filesystem) (path : string) :
  process_file fs path =
  match fs path with
  | Some (Regular c) =>
      (true, update fs path (Regular (apply_fixes c)),
       [Processing path; Done])
  | _ => (false, fs, [Processing path; Error])
  end.
Proof.
  unfold process_file, read_file, write_file, apply_fixes.
  destruct (fs path) as [[|c|c]|]; cbv beta iota zeta; reflexivity.
Qed.

Lemma process_file_status (fs : filesystem) (path : string) :
  fst (fst (process_file fs path)) = processable fs path.
Proof.
  rewrite process_file_result. unfold processable.
  destruct (fs path) as [[|c|c]|]; reflexivity.
Qed.

Lemma update_other (fs : filesystem) (p q : string) (f : file) :
  q <> p -> update fs p f q = fs q.
Proof.
  intros H. unfold update. destruct (String.eqb_spec q p); congruence.
Qed.

Lemma update_same (fs : filesystem) (p : string) (f : file) :
  update fs p f p = Some f.
Proof. unfold update. rewrite String.eqb_refl. reflexivity. Qed.

Lemma processable_update (fs : filesystem) (p q : string) (c c' : str) :
  fs p = Some (Regular c) ->
  processable (update fs p (Regular c')) q = processable fs q.
Proof.
  intros H. unfold processable, update.
  destruct (String.eqb_spec q p) as [->|]; [rewrite H|]; reflexivity.
Qed.

(** The loop visits every file of the list, whatever happened to the
    files before it. *)
Lemma main_loop_tally (files : list string) (fs : filesystem) (t : tally)
  (out : list message) :
  let t' := snd (fst (main_loop files fs t out)) in
  success_count t' =
    success_count t + length (filter (processable fs) files)
  /\ fail_count t' =
       fail_count t
       + length (filter (fun f => negb (processable fs f)) files).
Proof.
  revert fs t out; induction files as [|f files IH]; intros fs t out.
  - simpl. lia.
  - cbn [main_loop]. rewrite process_file_result. cbn [filter].
    destruct (fs f) as [[|c|c]|] eqn:E;
      match goal with
      | |- context [main_loop files ?fs' ?t' ?out'] =>
          specialize (IH fs' t' out')
      end;
      (assert (Hp : processable fs f =
                    match fs f with Some (Regular _) => true | _ => false end)
         by reflexivity);
      rewrite E in Hp; rewrite !Hp;
      cbv zeta in *; cbn [negb success_count fail_count length] in *;
      try lia.
    rewrite (filter_ext _ _ (fun x => processable_update fs f x c _ E)) in IH.
    rewrite (filter_ext (fun x => negb (processable (update fs f _) x))
               (fun x => negb (processable fs x))) in IH
      by (intros x; rewrite (processable_update fs f x c _ E); reflexivity).
    lia.
Qed.

Lemma main_loop_out (files : list string) (fs : filesystem) (t : tally)
  (out : list message) (m : message) :
  In m out -> In m (snd (main_loop files fs t out)).
Proof.
  revert fs t out; induction files as [|f files IH]; intros fs t out H;
    [exact H|].
  cbn [main_loop]. rewrite process_file_result.
  destruct (fs f) as [[|c|c]|]; apply IH, in_or_app; left; exact H.
Qed.

Lemma main_loop_not_found (files : list string) (fs : filesystem) (t : tally)
  (out : list message) (f : string) :
  In f files -> fs f = None ->
  In (NotFound f) (snd (main_loop files fs t out)).
Proof.
  revert fs t out; induction files as [|g files IH]; intros fs t out Hin Hf;
    [destruct Hin|].
  cbn [main_loop]. rewrite process_file_result.
  destruct (String.eqb_spec g f) as [->|Hne].
  - rewrite Hf. apply main_loop_out, in_or_app. right. left. reflexivity.
  - destruct Hin as [Hg|Hin]; [congruence|].
    destruct (fs g) as [[|c|c]|] eqn:E; apply IH; try assumption.
    rewrite update_other by congruence. exact Hf.
Qed.

Lemma main_loop_keeps (files : list string) (fs : filesystem) (t : tally)
  (out : list message) (f : string) :
  ~ In f files -> fst (fst (main_loop files fs t out)) f = fs f.
Proof.
  revert fs t out; induction files as [|g files IH]; intros fs t out Hin;
    [reflexivity|].
  cbn [main_loop]. rewrite process_file_result.
  assert (Hg : f <> g) by (intros ->; apply Hin; left; reflexivity).
  assert (Hf : ~ In f files) by (intros H; apply Hin; right; exact H).
  destruct (fs g) as [[|c|c]|] eqn:E; rewrite IH by exact Hf;
    try reflexivity.
  apply update_other, Hg.
Qed.

Lemma main_loop_rewrites (files : list string) (fs : filesystem) (t : tally)
  (out : list message) (f : string) (c : str) :
  NoDup files -> In f files -> fs f = Some (Regular c) ->
  fst (fst (main_loop files fs t out)) f = Some (Regular (apply_fixes c)).
Proof.
  revert fs t out; induction files as [|g files IH];
    intros fs t out Hnd Hin Hf; [destruct Hin|].
  inversion Hnd as [|? ? Hg Hnd']; subst.
  cbn [main_loop]. rewrite process_file_result.
  destruct (String.eqb_spec g f) as [->|Hne].
  - rewrite Hf. rewrite main_loop_keeps by exact Hg. apply update_same.
  - destruct Hin as [Hg'|Hin]; [congruence|].
    destruct (fs g) as [[|c'|c']|] eqn:E; apply IH; try assumption.
    rewrite update_other by congruence. exact Hf.
Qed.

Lemma FILES_NoDup : NoDup FILES.
Proof.
  unfold FILES.
  repeat (constructor; [simpl; intros H;
                        repeat (destruct H as [H|H]; [discriminate|]);
                        exact H|]).
  constructor.
Qed.

(** C7.  [main] returns a status other than 0 exactly when some file of
    the list is missing or [process_file] returns [False] for it.  A
    missing file is reported as not found and counted as a failure, and
    the loop goes on: every file of the list is counted once, and every
    file that can be read and written is rewritten by the three passes,
    whatever happened to the others. *)
Theorem main_exit_status (fs : filesystem) :
  let '(status, fs', out) := main fs in
  (status <> 0 <->
   exists f, In f FILES
             /\ (fs f = None
                 \/ fs f <> None /\ fst (fst (process_file fs f)) = false))
  /\ (status = 0 <->
      forall f, In f FILES -> fst (fst (process_file fs f)) = true)
  /\ (forall f, In f FILES -> fs f = None -> In (NotFound f) out)
  /\ (forall f c, In f FILES -> fs f = Some (Regular c) ->
                  fs' f = Some (Regular (apply_fixes c)))
  /\ (exists s n, In (Summary s n) out /\ s + n = length FILES
                  /\ (status = 0 <-> n = 0)).
Proof.
  unfold main.
  pose proof (main_loop_tally FILES fs
                {| success_count := 0; fail_count := 0 |} []) as Ht.
  pose proof (fun f => main_loop_not_found FILES fs
                {| success_count := 0; fail_count := 0 |} [] f) as Hnf.
  pose proof (fun f c => main_loop_rewrites FILES fs
                {| success_count := 0; fail_count := 0 |} [] f c
                FILES_NoDup) as Hrw.
  destruct (main_loop FILES fs {| success_count := 0; fail_count := 0 |} [])
    as [[fs' t] out].
  cbv zeta in Ht. cbn [fst snd success_count fail_count] in *.
  destruct Ht as [Hs Hf].
  assert (Hzero : fail_count t = 0 <->
                  forall f, In f FILES -> processable fs f = true).
  { rewrite Hf. cbn [Nat.add]. split.
    - intros H f Hin. destruct (processable fs f) eqn:E; [reflexivity|].
      assert (Hin' : In f (filter (fun f => negb (processable fs f)) FILES))
        by (apply filter_In; rewrite E; auto).
      destruct (filter (fun f => negb (processable fs f)) FILES);
        [destruct Hin' | discriminate].
    - intros H.
      destruct (filter (fun f => negb (processable fs f)) FILES) as [|x l]
        eqn:E; [reflexivity|].
      assert (Hx : In x (filter (fun f => negb (processable fs f)) FILES))
        by (rewrite E; left; reflexivity).
      apply filter_In in Hx as [Hx Hp]. rewrite (H x Hx) in Hp.
      discriminate. }
  assert (Hstatus : (if fail_count t =? 0 then 0 else 1) = 0 <->
                    fail_count t = 0).
  { destruct (Nat.eqb_spec (fail_count t) 0); split; intros; congruence. }
  split; [|split; [|split; [|split]]].
  - rewrite Hstatus, Hzero. split.
    + intros H.
      destruct (Exists_dec (fun f => processable fs f = false) FILES)
        as [He|He].
      { intros x. destruct (processable fs x); [right | left]; congruence. }
      * apply Exists_exists in He as (f & Hin & Hp). exists f.
        split; [exact Hin|]. rewrite process_file_status.
        destruct (fs f) eqn:E; [right | left]; [|reflexivity].
        split; [discriminate | exact Hp].
      * exfalso. apply H. intros f Hin.
        destruct (processable fs f) eqn:E; [reflexivity|].
        exfalso. apply He, Exists_exists. eauto.
    + intros (f & Hin & Hbad) H. specialize (H f Hin).
      unfold processable in H. rewrite process_file_status in Hbad.
      unfold processable in Hbad.
      destruct Hbad as [Hn|[_ Hp]]; [rewrite Hn in H; discriminate|].
      rewrite Hp in H. discriminate.
  - rewrite Hstatus, Hzero. split; intros H f Hin;
      [rewrite process_file_status | rewrite <- process_file_status];
      apply H, Hin.
  - intros f Hin Hf'. apply in_or_app. left. apply Hnf; assumption.
  - exact Hrw.
  - exists (success_count t), (fail_count t). split; [|split].
    + apply in_or_app. right. left. reflexivity.
    + rewrite Hs, Hf. cbn [Nat.add].
      rewrite <- (filter_length (processable fs) FILES). reflexivity.
    + exact Hstatus.
Qed.

Lemma main_exit_status_witness :
  fst (fst (main (one_file "cpu.c" (py "}
/** doc */")))) <> 0
  /\ snd (fst (main (one_file "cpu.c" (py "}
/** doc */")))) "cpu.c"%string
     = Some (Regular (apply_fixes (py "}
/** doc */"))).
Proof.
  pose proof (main_exit_status (one_file "cpu.c" (py "}
/** doc */"))) as H.
  destruct (main (one_file "cpu.c" (py "}
/** doc */"))) as [[status fs'] out].
  destruct H as (H1 & _ & _ & H4 & _). cbn [fst snd]. split.
  - apply H1. exists "arch_tls.c"%string. split.
    + right. left. reflexivity.
    + left. reflexivity.
  - apply H4; [|reflexivity]. do 5 right. left. reflexivity.
Defined.

(** * Further properties of the passes *)

(** ** Each pass on its own output *)

Lemma fcs_twice (content : str) :
  fix_comment_separators (fix_comment_separators content) =
  fix_comment_separators content.
Proof.
  rewrite <- (join_split content). rewrite !fcs_join, map_map.
  f_equal. apply map_ext_in. intros l Hl.
  apply fcs_line_idem.
  pose proof (split_nl_lines content) as H. unfold all_lines in H.
  rewrite Forall_forall in H. apply H, Hl.
Qed.

Lemma ffs_twice (content : str) :
  fix_function_spacing (fix_function_spacing content) =
  fix_function_spacing content.
Proof.
  rewrite (fix_function_spacing_lines (fix_function_spacing content)).
  rewrite split_ffs, fs_lines_fixed by apply fs_lines_spaced.
  symmetry. apply fix_function_spacing_lines.
Qed.

Lemma frs_twice (content : str) :
  fix_return_spacing (fix_return_spacing content) =
  fix_return_spacing content.
Proof.
  rewrite (fix_return_spacing_lines (fix_return_spacing content)).
  rewrite split_frs, rs_lines_idem.
  symmetry. apply fix_return_spacing_lines.
Qed.

(** X1.  Each of the three passes, run on its own output, changes
    nothing. *)
Theorem each_pass_idempotent (content : str) :
  fix_comment_separators (fix_comment_separators content) =
    fix_comment_separators content
  /\ fix_function_spacing (fix_function_spacing content) =
       fix_function_spacing content
  /\ fix_return_spacing (fix_return_spacing content) =
       fix_return_spacing content.
Proof.
  split; [apply fcs_twice | split; [apply ffs_twice | apply frs_twice]].
Qed.

(** X2.  The banner pass rewrites a text line by line: the lines of its
    output are its outputs on the lines of the input, no match runs over a
    newline, and a line stays one line. *)
Theorem banner_pass_linewise :
  (forall content,
     split_nl (fix_comment_separators content) =
     map fix_comment_separators (split_nl content))
  /\ (forall ls,
        fix_comment_separators (join_nl ls) =
        join_nl (map fix_comment_separators ls))
  /\ (forall l, no_newline l = true ->
                no_newline (fix_comment_separators l) = true).
Proof.
  split; [exact fcs_lines | split; [exact fcs_join | exact fcs_line]].
Qed.

Lemma banner_pass_linewise_witness :
  no_newline (fix_comment_separators (py "/* 头 文 件 */ int x;")) = true.
Proof.
  apply (proj2 (proj2 banner_pass_linewise)). reflexivity.
Defined.

(** ** The output of the three passes is a fixed point of each *)

Lemma apply_fixes_settled (content : str) :
  fix_comment_separators (apply_fixes content) = apply_fixes content
  /\ fix_function_spacing (apply_fixes content) = apply_fixes content
  /\ fix_return_spacing (apply_fixes content) = apply_fixes content.
Proof.
  rewrite (apply_fixes_lines content).
  destruct (fixed_lines_ok content) as (Hne & Hall & Hsp & Hfix).
  set (ls := fixed_lines content) in *.
  split; [|split].
  - rewrite fcs_join, (map_fixed _ _ Hfix). reflexivity.
  - rewrite fix_function_spacing_lines, (split_join _ Hne Hall),
      (fs_lines_fixed _ Hsp). reflexivity.
  - rewrite fix_return_spacing_lines, (split_join _ Hne Hall).
    unfold ls, fixed_lines. rewrite rs_lines_idem. reflexivity.
Qed.

Lemma apply_fixes_twice (content : str) :
  apply_fixes (apply_fixes content) = apply_fixes content.
Proof.
  destruct (apply_fixes_settled content) as (H1 & H2 & H3).
  unfold apply_fixes at 1. rewrite H1, H2, H3. reflexivity.
Qed.

(** X3.  Each pass alone leaves the output of the three passes as it is;
    and a text is left as it is by the three passes together exactly when
    each of them alone leaves it as it is. *)
Theorem clean_text_fixed_point (content : str) :
  (fix_comment_separators (apply_fixes content) = apply_fixes content
   /\ fix_function_spacing (apply_fixes content) = apply_fixes content
   /\ fix_return_spacing (apply_fixes content) = apply_fixes content)
  /\ (apply_fixes content = content <->
      fix_comment_separators content = content
      /\ fix_function_spacing content = content
      /\ fix_return_spacing content = content).
Proof.
  split; [apply apply_fixes_settled|]. split.
  - intros H. pose proof (apply_fixes_settled content) as Hs.
    rewrite H in Hs. exact Hs.
  - intros (H1 & H2 & H3). unfold apply_fixes. rewrite H1, H2, H3.
    reflexivity.
Qed.

Lemma clean_text_fixed_point_witness :
  apply_fixes (py "int f()
{
    return 0;
}") = py "int f()
{
    return 0;
}".
Proof.
  apply (proj2 (clean_text_fixed_point _)).
  repeat split; vm_compute; reflexivity.
Defined.

(** ** Only blank lines are added *)



Lemma re_sub_empty (p : regex) (repl s : str) :
  existsb is_one p = true -> repl <> [] ->
  re_sub p repl s = [] -> s = [].
Proof.
  intros Hp Hr H. destruct s as [|a s]; [reflexivity|].
  destruct (match_here p (a :: s)) as [r|] eqn:E.
  - rewrite (re_sub_match _ _ Hp _ _ E) in H.
    apply app_eq_nil in H as [H _]. congruence.
  - rewrite (re_sub_skip _ _ _ _ E) in H. discriminate.
Qed.

Lemma fold_rules_empty (rs : list (regex * str)) (l : str) :
  Forall is_rule rs -> fold_left apply_rule rs l = [] -> l = [].
Proof.
  intros H; revert l; induction H as [|[p b] rs Hr _ IH]; intros l Hl;
    [exact Hl|].
  destruct Hr as (kw & Hp & _ & Hok & _). cbn [fst snd] in Hp, Hok. subst p.
  rewrite fold_left_cons, apply_rule_pair in Hl. apply IH in Hl.
  apply (re_sub_empty _ _ _ (banner_re_one kw)) in Hl; [exact Hl|].
  apply banner_ok_shape in Hok as (Hb & _). rewrite Hb. discriminate.
Qed.

Lemma fcs_empty (l : str) :
  eqb_str (fix_comment_separators l) [] = eqb_str l [].
Proof.
  destruct (eqb_str l []) eqn:E.
  - apply eqb_str_eq in E. subst l. reflexivity.
  - apply eqb_str_neq. intros H. apply eqb_str_neq in E. apply E.
    rewrite fcs_fold in H.
    apply (fold_rules_empty _ _ replacements_rules H).
Qed.

Lemma split_apply_fixes (content : str) :
  split_nl (apply_fixes content) = fixed_lines content.
Proof.
  rewrite apply_fixes_lines.
  destruct (fixed_lines_ok content) as (Hne & Hall & _).
  apply split_join; assumption.
Qed.



(** ** The first and the last line *)

Lemma rs_lines_first (ls : list str) :
  hd_error (rs_lines [] ls) = hd_error ls.
Proof.
  destruct ls as [|l after]; [reflexivity|].
  cbn [rs_lines]. rewrite rs_insert_before. reflexivity.
Qed.

Lemma last_cons_nonempty (l : str) (ls : list str) :
  ls <> [] -> last (l :: ls) [] = last ls [].
Proof. destruct ls; [congruence | reflexivity]. Qed.

Lemma fs_lines_last (ls : list str) : last (fs_lines ls) [] = last ls [].
Proof.
  induction ls as [|l after IH]; [reflexivity|].
  destruct after as [|nx after].
  - cbn [fs_lines]. unfold fs_insert. rewrite andb_false_r. reflexivity.
  - assert (Hne : fs_lines (nx :: after) <> [])
      by (apply fs_lines_nonempty; discriminate).
    rewrite (last_cons_nonempty l (nx :: after)) by discriminate.
    rewrite <- IH. cbn [fs_lines].
    destruct (fs_insert l (nx :: after));
      rewrite !last_cons_nonempty; try reflexivity; try exact Hne;
      discriminate.
Qed.

Lemma rs_lines_last (before ls : list str) :
  last (rs_lines before ls) [] = last ls [].
Proof.
  revert before; induction ls as [|l after IH]; intros before; [reflexivity|].
  destruct after as [|nx after].
  - cbn [rs_lines]. destruct (rs_insert before l []); reflexivity.
  - assert (Hne : rs_lines (l :: before) (nx :: after) <> [])
      by (apply rs_lines_nonempty; discriminate).
    rewrite (last_cons_nonempty l (nx :: after)) by discriminate.
    rewrite <- (IH (l :: before)). cbn [rs_lines].
    destruct (rs_insert before l (nx :: after));
      rewrite !last_cons_nonempty; try reflexivity; try exact Hne;
      discriminate.
Qed.

Lemma map_last (f : str -> str) (ls : list str) :
  f [] = [] -> last (map f ls) [] = f (last ls []).
Proof.
  intros H; induction ls as [|l ls IH]; [symmetry; exact H|].
  destruct ls as [|x ls]; [reflexivity|]. exact IH.
Qed.

(** X5.  The three passes put nothing before the first line of a text and
    nothing after its last line: the first line of the output is the
    banner pass of the first line of the input, and so for the last line.
    So a text that ends with a newline still does, and one that does not
    still does not. *)
Theorem first_and_last_line_kept (content : str) :
  hd [] (split_nl (apply_fixes content)) =
    fix_comment_separators (hd [] (split_nl content))
  /\ last (split_nl (apply_fixes content)) [] =
       fix_comment_separators (last (split_nl content) [])
  /\ (eqb_str (last (split_nl (apply_fixes content)) []) [] =
      eqb_str (last (split_nl content) []) []).
Proof.
  rewrite split_apply_fixes. unfold fixed_lines.
  assert (Hhd : hd_error
                  (rs_lines [] (fs_lines (map fix_comment_separators
                                            (split_nl content)))) =
                hd_error (map fix_comment_separators (split_nl content)))
    by (rewrite rs_lines_first, fs_lines_head; reflexivity).
  assert (Hlast : last (rs_lines [] (fs_lines (map fix_comment_separators
                                                 (split_nl content)))) [] =
                  fix_comment_separators (last (split_nl content) []))
    by (rewrite rs_lines_last, fs_lines_last; apply map_last; reflexivity).
  split; [|split].
  - destruct (split_nl_cons content) as (l & ls & E). rewrite E in *.
    cbn [map hd_error hd] in *.
    destruct (rs_lines [] (fs_lines (fix_comment_separators l
                                       :: map fix_comment_separators ls)));
      [discriminate|]. injection Hhd as ->. reflexivity.
  - exact Hlast.
  - rewrite Hlast. apply fcs_empty.
Qed.

(** ** Texts a pass has nothing to do on *)

Lemma startswith_app_l (s w y : str) :
  startswith s w = true -> startswith (s ++ y) w = true.
Proof.
  intros H. apply startswith_split in H as [t ->].
  rewrite <- app_assoc. apply startswith_app.
Qed.

Lemma contains_app_l (w s y : str) :
  contains w s = true -> contains w (s ++ y) = true.
Proof.
  induction s as [|a s IH]; intros H.
  - simpl in H. rewrite orb_false_r in H.
    destruct w; [|discriminate]. destruct y; reflexivity.
  - rewrite contains_cons in H. rewrite <- app_comm_cons, contains_cons.
    apply orb_true_iff in H as [H|H].
    + change (a :: s ++ y) with ((a :: s) ++ y).
      rewrite (startswith_app_l (a :: s) w y H). reflexivity.
    + rewrite (IH H). apply orb_true_r.
Qed.

Lemma contains_part (w x l y : str) :
  contains w (x ++ l ++ y) = false -> contains w l = false.
Proof.
  intros H. destruct (contains w l) eqn:E; [|reflexivity].
  rewrite (contains_app_r w x _ (contains_app_l w l y E)) in H.
  discriminate.
Qed.

Lemma lstrip_part (l : str) : exists a, l = a ++ lstrip l.
Proof.
  induction l as [|c l [a IH]]; [exists []; reflexivity|].
  simpl. destruct (isspace c).
  - exists (c :: a). simpl. f_equal. exact IH.
  - exists []. reflexivity.
Qed.

Lemma strip_part (l : str) : exists a b, l = a ++ strip l ++ b.
Proof.
  unfold strip, rstrip.
  destruct (lstrip_part l) as [a Ha].
  destruct (lstrip_part (rev (lstrip l))) as [b Hb].
  exists a, (rev b). rewrite <- rev_app_distr, <- Hb, rev_involutive.
  exact Ha.
Qed.

Lemma join_part (ls : list str) (l : str) :
  In l ls -> exists x y, join_nl ls = x ++ l ++ y.
Proof.
  induction ls as [|l0 ls IH]; intros H; [destruct H|].
  destruct ls as [|l1 ls].
  - destruct H as [->|[]]. exists [], []. simpl. symmetry. apply app_nil_r.
  - change (join_nl (l0 :: l1 :: ls)) with (l0 ++ NL :: join_nl (l1 :: ls)).
    destruct H as [->|H].
    + exists [], (NL :: join_nl (l1 :: ls)). reflexivity.
    + destruct (IH H) as (x & y & E). rewrite E.
      exists (l0 ++ NL :: x), y. rewrite <- app_assoc. reflexivity.
Qed.

Lemma contains_line (w content l : str) :
  contains w content = false -> In l (split_nl content) ->
  contains w l = false.
Proof.
  intros H Hin. destruct (join_part _ _ Hin) as (x & y & E).
  rewrite join_split in E. rewrite E in H.
  apply (contains_part w x l y H).
Qed.

Lemma contains_strip (w l : str) :
  contains w l = false -> contains w (strip l) = false.
Proof.
  intros H. destruct (strip_part l) as (a & b & E). rewrite E in H.
  apply (contains_part w a _ b H).
Qed.

Lemma startswith_contains (w s : str) :
  startswith s w = true -> contains w s = true.
Proof.
  intros H. destruct s; simpl; rewrite H; reflexivity.
Qed.

Lemma sub_no_open (kw b s : str) :
  contains OPEN s = false -> re_sub (banner_re kw) b s = s.
Proof.
  induction s as [|a s IH]; intros H.
  - apply re_sub_nil, banner_re_one.
  - rewrite re_sub_skip by (apply banner_no_open, contains_head, H).
    rewrite (IH (contains_tail _ _ _ H)). reflexivity.
Qed.

Lemma fold_rules_same (rs : list (regex * str)) (s : str) :
  Forall is_rule rs ->
  (forall kw b, re_sub (banner_re kw) b s = s) ->
  fold_left apply_rule rs s = s.
Proof.
  intros H Hs; induction H as [|[p b] rs Hr _ IH]; [reflexivity|].
  destruct Hr as (kw & Hp & _). cbn [fst] in Hp. subst p.
  rewrite fold_left_cons, apply_rule_pair, Hs. exact IH.
Qed.

(** A line that is a return statement for the pass begins, once trimmed,
    with [return]. *)
Lemma return_stmt_starts (s : str) :
  is_return_stmt s = true -> startswith s RETURN = true.
Proof.
  unfold is_return_stmt. intros H. apply orb_true_iff in H as [H|H].
  - unfold re_match, return_re in H.
    destruct (match_here _ s) as [r|] eqn:E; [|discriminate].
    apply match_lit_inv in E as (s' & -> & _). apply startswith_app.
  - apply eqb_str_eq in H. subst s. reflexivity.
Qed.

Lemma no_doc_spaced (ls : list str) :
  Forall (fun l => contains DOC_OPEN l = false) ls -> spaced ls.
Proof.
  induction 1 as [|l after Hl Hafter IH]; [exact I|].
  split; [|exact IH]. unfold fs_insert.
  destruct Hafter as [|nx after Hnx _]; [apply andb_false_r|].
  destruct (startswith (strip nx) DOC_OPEN) eqn:E; [|apply andb_false_r].
  apply startswith_contains in E.
  rewrite (contains_strip _ _ Hnx) in E. discriminate.
Qed.

Lemma no_return_kept (before ls : list str) :
  Forall (fun l => contains RETURN l = false) ls -> rs_lines before ls = ls.
Proof.
  intros H; revert before; induction H as [|l after Hl _ IH]; intros before;
    [reflexivity|].
  cbn [rs_lines]. rewrite IH.
  assert (E : rs_insert before l after = false); [|rewrite E; reflexivity].
  unfold rs_insert.
  destruct (is_return_stmt (strip l)) eqn:Er; [|reflexivity].
  apply return_stmt_starts, startswith_contains in Er.
  rewrite (contains_strip _ _ Hl) in Er. discriminate.
Qed.

Lemma contains_lines (w content : str) :
  contains w content = false ->
  Forall (fun l => contains w l = false) (split_nl content).
Proof.
  intros H. apply Forall_forall. intros l Hl.
  apply (contains_line w content l H Hl).
Qed.

(** X6.  A pass leaves alone a text that lacks what it looks for: the
    banner pass a text without a comment opener or without a comment
    closer, the function pass a text without the three characters of a
    documentation-comment opener, the return pass a text without the word
    [return]. *)
Theorem pass_needs_its_marker (content : str) :
  (contains (py "/*") content = false \/ contains (py "*/") content = false ->
   fix_comment_separators content = content)
  /\ (contains (py "/**") content = false ->
      fix_function_spacing content = content)
  /\ (contains (py "return") content = false ->
      fix_return_spacing content = content).
Proof.
  split; [|split].
  - intros H. rewrite fcs_fold.
    apply fold_rules_same; [apply replacements_rules|].
    intros kw b. destruct H as [H|H];
      [apply sub_no_open | apply sub_no_close]; exact H.
  - intros H. rewrite fix_function_spacing_lines, fs_lines_fixed.
    + apply join_split.
    + apply no_doc_spaced, contains_lines, H.
  - intros H. rewrite fix_return_spacing_lines, no_return_kept.
    + apply join_split.
    + apply contains_lines, H.
Qed.

Lemma pass_needs_its_marker_witness :
  fix_comment_separators (py "int 头 文 件; // no comment
}") = py "int 头 文 件; // no comment
}"
  /\ fix_function_spacing (py "}
/* plain */") = py "}
/* plain */"
  /\ fix_return_spacing (py "{
    x = 1;
    goto out;
}") = py "{
    x = 1;
    goto out;
}".
Proof.
  split; [|split].
  - apply (proj1 (pass_needs_its_marker _)). left. reflexivity.
  - apply (proj1 (proj2 (pass_needs_its_marker _))). reflexivity.
  - apply (proj2 (proj2 (pass_needs_its_marker _))). reflexivity.
Defined.

(** ** The two spacing passes in either order *)

Lemma doc_not_return (s : str) :
  startswith s DOC_OPEN = true -> is_return_stmt s = false.
Proof.
  intros H. destruct (is_return_stmt s) eqn:E; [|reflexivity].
  apply return_stmt_starts in E. apply startswith_split in H as [t ->].
  discriminate.
Qed.

Lemma rs_insert_not_return (before : list str) (l : str) (after : list str) :
  is_return_stmt (strip l) = false -> rs_insert before l after = false.
Proof. intros H. unfold rs_insert. rewrite H. reflexivity. Qed.

Lemma rs_insert_next (before : list str) (l : str) (a1 a2 : list str) :
  hd_error a1 = hd_error a2 ->
  rs_insert before l a1 = rs_insert before l a2.
Proof.
  unfold rs_insert. destruct a1, a2; simpl; intros H;
    try discriminate; try reflexivity.
  injection H as ->. reflexivity.
Qed.

Lemma fpad_nonempty (p p' : list str) : fpad p p' -> p <> [] -> p' <> [].
Proof. intros H; destruct H; intros Hp; congruence. Qed.

Lemma fpad_empty (p p' : list str) : fpad p p' -> p = [] -> p' = [].
Proof. intros H; destruct H; intros Hp; congruence. Qed.

(** A blank line after a closing brace does not change what the backward
    scan answers: the scan stops at the brace, or before it. *)
Lemma brace_scan_fpad (p p' : list str) :
  fpad p p' -> forall n,
  brace_scan (firstn n (removelast p')) = brace_scan (firstn n (removelast p)).
Proof.
  induction 1 as [|l p p' Hp IH|x p p' Hx Hp IH]; intros n.
  - reflexivity.
  - destruct p as [|y p].
    + rewrite (fpad_empty _ _ Hp eq_refl). reflexivity.
    + assert (Hne : p' <> []) by (apply (fpad_nonempty _ _ Hp); discriminate).
      rewrite !removelast_cons by (assumption || discriminate).
      destruct n as [|n]; [reflexivity|].
      rewrite !firstn_cons. simpl brace_scan. rewrite IH. reflexivity.
  - destruct p as [|y p].
    + rewrite (fpad_empty _ _ Hp eq_refl).
      destruct n as [|[|n]]; reflexivity.
    + assert (Hne : p' <> []) by (apply (fpad_nonempty _ _ Hp); discriminate).
      change (removelast ([] :: x :: p')) with ([] :: removelast (x :: p')).
      rewrite !removelast_cons by (assumption || discriminate).
      destruct n as [|n]; [reflexivity|].
      rewrite !firstn_cons. simpl brace_scan.
      change (eqb_str (strip []) RBRACE) with false.
      change (eqb_str (strip []) LBRACE) with false. cbv iota.
      rewrite Hx.
      destruct n as [|n]; [reflexivity|].
      rewrite firstn_cons. simpl brace_scan. rewrite Hx. reflexivity.
Qed.

Lemma brace_scan_after_brace (x : str) (p : list str) (n : nat) :
  eqb_str (strip x) RBRACE = true ->
  brace_scan (firstn n (removelast (x :: p))) = false.
Proof.
  intros Hx. destruct p as [|y p]; [destruct n; reflexivity|].
  rewrite removelast_cons by discriminate.
  destruct n as [|n]; [reflexivity|].
  rewrite firstn_cons. simpl brace_scan. rewrite Hx. reflexivity.
Qed.

Lemma rs_insert_fpad (p p' : list str) (l : str) (after : list str) :
  fpad p p' -> rs_insert p' l after = rs_insert p l after.
Proof.
  intros Hp. unfold rs_insert.
  destruct Hp as [|l0 p p' Hp|x p p' Hx Hp].
  - reflexivity.
  - rewrite (brace_scan_fpad _ _ (fpad_keep l0 _ _ Hp)). reflexivity.
  - change (negb (eqb_str (strip []) [])) with false.
    rewrite andb_false_r, (brace_scan_after_brace x p 4 Hx), andb_false_r.
    reflexivity.
Qed.

Lemma fs_lines_cons (l : str) (after : list str) :
  fs_lines (l :: after) =
  if fs_insert l after then l :: [] :: fs_lines after else l :: fs_lines after.
Proof. reflexivity. Qed.

Lemma rs_lines_cons (before : list str) (l : str) (after : list str) :
  rs_lines before (l :: after) =
  if rs_insert before l after then [] :: l :: rs_lines (l :: before) after
  else l :: rs_lines (l :: before) after.
Proof. reflexivity. Qed.

Lemma fs_insert_blank_line (after : list str) : fs_insert [] after = false.
Proof. reflexivity. Qed.

Lemma spacers_commute_lines (ls p p' : list str) :
  fpad p p' -> rs_lines p' (fs_lines ls) = fs_lines (rs_lines p ls).
Proof.
  revert p p'; induction ls as [|l after IH]; intros p p' Hp; [reflexivity|].
  rewrite fs_lines_cons. destruct (fs_insert l after) eqn:Ef.
  - (* a closing brace followed by a documentation comment *)
    pose proof Ef as Ef'. unfold fs_insert in Ef'.
    apply andb_true_iff in Ef' as [Hb Hdoc].
    pose proof (brace_not_return _ Hb) as Hl.
    destruct after as [|nx a2]; [discriminate|].
    pose proof (doc_not_return _ Hdoc) as Hnx.
    rewrite (rs_lines_cons p' l), (rs_insert_not_return p' l _ Hl).
    rewrite (rs_lines_cons (l :: p') []),
      (rs_insert_not_return (l :: p') [] _ eq_refl).
    rewrite (rs_lines_cons p l), (rs_insert_not_return p l _ Hl).
    rewrite (fs_lines_cons l).
    assert (Hhd : hd_error (rs_lines (l :: p) (nx :: a2)) =
                  hd_error (nx :: a2))
      by (rewrite rs_lines_cons, (rs_insert_not_return _ nx _ Hnx);
          reflexivity).
    rewrite (fs_insert_head l _ _ Hhd), Ef.
    f_equal. f_equal. apply IH. apply fpad_brace; assumption.
  - rewrite (rs_lines_cons p' l), (rs_lines_cons p l).
    rewrite (rs_insert_next p' l (fs_lines after) after (fs_lines_head after)).
    rewrite (rs_insert_fpad p p' l after Hp).
    rewrite (IH (l :: p) (l :: p') (fpad_keep l _ _ Hp)).
    pose proof (fs_insert_after_rs l (l :: p) after Ef) as E.
    destruct (rs_insert p l after).
    + rewrite (fs_lines_cons []), fs_insert_blank_line,
        (fs_lines_cons l), E. reflexivity.
    + rewrite (fs_lines_cons l), E. reflexivity.
Qed.

(** X7.  The two spacing passes can be run in either order: the blank
    line one of them adds never changes what the other decides.  (The
    banner pass has to come first: a banner it writes begins like a
    documentation comment, which the function pass acts on.) *)
Theorem spacing_passes_commute (content : str) :
  fix_return_spacing (fix_function_spacing content) =
  fix_function_spacing (fix_return_spacing content).
Proof.
  rewrite (fix_return_spacing_lines (fix_function_spacing content)).
  rewrite (fix_function_spacing_lines (fix_return_spacing content)).
  rewrite split_ffs, split_frs.
  rewrite (spacers_commute_lines (split_nl content) [] [] fpad_nil).
  reflexivity.
Qed.

(** ** What counts as a return statement *)

Lemma return_re_inv (s r : str) :
  match_here return_re s = Some r ->
  exists c t1, s = RETURN ++ c :: t1 ++ py ";" ++ r /\ isspace c = true.
Proof.
  unfold return_re. intros H.
  apply match_lit_inv in H as (s1 & -> & H).
  change (plus CSpace ++ Star CDot :: lit (py ";"))
    with (One CSpace :: Star CSpace :: Star CDot :: lit (py ";")) in H.
  destruct s1 as [|c s2]; [discriminate|].
  rewrite match_one_cons in H.
  change (cls_match CSpace c) with (isspace c) in H.
  destruct (isspace c) eqn:Hc; [|discriminate].
  apply star_sound in H as (u & v & -> & _ & H).
  apply star_sound in H as (u2 & v2 & -> & _ & H).
  apply match_lit_end in H. subst v2.
  exists c, (u ++ u2). split; [|exact Hc].
  rewrite <- !app_assoc. reflexivity.
Qed.

Lemma return_re_complete (c : char) (t1 t2 : str) :
  isspace c = true -> no_newline t1 = true ->
  re_match return_re (RETURN ++ c :: t1 ++ py ";" ++ t2) = true.
Proof.
  intros Hc Ht. unfold re_match, return_re.
  rewrite match_lit_app.
  change (plus CSpace ++ Star CDot :: lit (py ";"))
    with (One CSpace :: Star CSpace :: Star CDot :: lit (py ";")).
  rewrite match_one_cons.
  change (cls_match CSpace c) with (isspace c). rewrite Hc.
  destruct (star_complete CDot (lit (py ";")) t1 (py ";" ++ t2) t2 Ht)
    as [r Hr].
  { change (lit (py ";")) with (lit (py ";") ++ []).
    rewrite match_lit_app. reflexivity. }
  destruct (star_base CSpace _ _ _ Hr) as [r' Hr'].
  rewrite Hr'. reflexivity.
Qed.

Lemma return_stmt_inv (s : str) :
  is_return_stmt s = true ->
  s = py "return;"
  \/ exists c t1 t2,
       s = py "return" ++ c :: t1 ++ py ";" ++ t2 /\ isspace c = true.
Proof.
  unfold is_return_stmt. intros H. apply orb_true_iff in H as [H|H].
  - right. unfold re_match in H.
    destruct (match_here return_re s) as [r|] eqn:E; [|discriminate].
    apply return_re_inv in E as (c & t1 & E & Hc). exists c, t1, r. auto.
  - left. apply eqb_str_eq in H. exact H.
Qed.

(** X8.  What the return pass takes for a return statement.  A trimmed
    line is one exactly when it is [return;] or is made of [return], a
    whitespace character, any text, a semicolon and any text.  So
    [return(x);], with no whitespace after the word, is not one, and
    neither is a line without a semicolon. *)
Theorem return_stmt_shape :
  (forall s, no_newline s = true ->
     (is_return_stmt s = true <->
      s = py "return;"
      \/ exists c t1 t2,
           s = py "return" ++ c :: t1 ++ py ";" ++ t2 /\ isspace c = true))
  /\ (forall t, is_return_stmt (py "return(" ++ t) = false)
  /\ (forall s, contains (py ";") s = false -> is_return_stmt s = false).
Proof.
  split; [|split].
  - intros s Hs. split; [apply return_stmt_inv|].
    intros [->|(c & t1 & t2 & -> & Hc)]; [reflexivity|].
    unfold is_return_stmt. rewrite return_re_complete; [reflexivity | exact Hc |].
    change (py "return" ++ c :: t1 ++ py ";" ++ t2)
      with (py "return" ++ [c] ++ t1 ++ py ";" ++ t2) in Hs.
    rewrite !no_newline_app in Hs.
    apply andb_true_iff in Hs as [_ Hs]. apply andb_true_iff in Hs as [_ Hs].
    apply andb_true_iff in Hs as [Hs _]. exact Hs.
  - intros t. destruct (is_return_stmt (py "return(" ++ t)) eqn:E;
      [|reflexivity].
    apply return_stmt_inv in E as [E|(c & t1 & t2 & E & Hc)].
    + discriminate.
    + injection E as <-. discriminate.
  - intros s Hs. destruct (is_return_stmt s) eqn:E; [|reflexivity].
    apply return_stmt_inv in E as [->|(c & t1 & t2 & -> & _)].
    + discriminate.
    + change (py "return" ++ c :: t1 ++ py ";" ++ t2)
        with ((py "return" ++ c :: t1) ++ py ";" ++ t2) in Hs.
      rewrite (contains_mid (py ";")) in Hs. discriminate.
Qed.

Lemma return_stmt_shape_witness :
  is_return_stmt (py "return" ++ 9%N :: py "x" ++ py ";" ++ py " /* done */")
    = true
  /\ is_return_stmt (py "return x") = false.
Proof.
  split.
  - apply (proj1 return_stmt_shape); [reflexivity|].
    right. exists 9%N, (py "x"), (py " /* done */"). split; reflexivity.
  - apply (proj2 (proj2 return_stmt_shape)). reflexivity.
Defined.

(** ** The driver and the files *)

Lemma main_fs (fs : filesystem) :
  snd (fst (main fs)) =
  fst (fst (main_loop FILES fs {| success_count := 0; fail_count := 0 |} [])).
Proof.
  unfold main.
  destruct (main_loop FILES fs {| success_count := 0; fail_count := 0 |} [])
    as [[fs' t] out]. reflexivity.
Qed.

Lemma main_status (fs : filesystem) :
  fst (fst (main fs)) =
  if length (filter (fun f => negb (processable fs f)) FILES) =? 0
  then 0 else 1.
Proof.
  unfold main.
  pose proof (main_loop_tally FILES fs
                {| success_count := 0; fail_count := 0 |} []) as Ht.
  destruct (main_loop FILES fs {| success_count := 0; fail_count := 0 |} [])
    as [[fs' t] out].
  cbv zeta in Ht. cbn [fst snd success_count fail_count] in *.
  destruct Ht as [_ ->]. reflexivity.
Qed.

Lemma main_out (fs : filesystem) :
  exists s n,
    snd (main fs) =
    snd (main_loop FILES fs {| success_count := 0; fail_count := 0 |} [])
      ++ [Summary s n].
Proof.
  unfold main.
  destruct (main_loop FILES fs {| success_count := 0; fail_count := 0 |} [])
    as [[fs' t] out].
  exists (success_count t), (fail_count t). reflexivity.
Qed.

Lemma main_loop_unprocessable (files : list string) (fs : filesystem)
  (t : tally) (out : list message) (f : string) :
  processable fs f = false ->
  fst (fst (main_loop files fs t out)) f = fs f.
Proof.
  revert fs t out; induction files as [|g files IH]; intros fs t out Hf;
    [reflexivity|].
  cbn [main_loop]. rewrite process_file_result.
  destruct (fs g) as [[|c|c]|] eqn:E; try (apply IH; exact Hf).
  rewrite IH by (rewrite (processable_update fs g f c _ E); exact Hf).
  apply update_other. intros ->.
  unfold processable in Hf. rewrite E in Hf. discriminate.
Qed.

Lemma main_loop_processable (files : list string) (fs : filesystem)
  (t : tally) (out : list message) (f : string) :
  processable (fst (fst (main_loop files fs t out))) f = processable fs f.
Proof.
  revert fs t out; induction files as [|g files IH]; intros fs t out;
    [reflexivity|].
  cbn [main_loop]. rewrite process_file_result.
  destruct (fs g) as [[|c|c]|] eqn:E; rewrite IH; try reflexivity.
  apply (processable_update fs g f c _ E).
Qed.

Lemma processable_regular (fs : filesystem) (f : string) :
  processable fs f = true -> exists c, fs f = Some (Regular c).
Proof.
  unfold processable. destruct (fs f) as [[|c|c]|]; try discriminate. eauto.
Qed.

(** X9.  [main] writes only files of its list that it can read and
    rewrite.  A file outside the list, and a listed file that is missing,
    unreadable or read-only, is after the run what it was before; no file
    is created or removed, and a file that could be processed still can
    be. *)
Theorem main_touches_only_listed (fs : filesystem) (f : string) :
  let fs' := snd (fst (main fs)) in
  (~ In f FILES -> fs' f = fs f)
  /\ (processable fs f = false -> fs' f = fs f)
  /\ (fs' f = None <-> fs f = None)
  /\ processable fs' f = processable fs f.
Proof.
  cbv zeta. rewrite main_fs. split; [|split; [|split]].
  - apply main_loop_keeps.
  - apply main_loop_unprocessable.
  - destruct (processable fs f) eqn:Ep.
    + pose proof (main_loop_processable FILES fs
                    {| success_count := 0; fail_count := 0 |} [] f) as Hp.
      rewrite Ep in Hp.
      apply processable_regular in Hp as [c1 E1].
      apply processable_regular in Ep as [c E].
      rewrite E1, E. split; discriminate.
    + rewrite main_loop_unprocessable by exact Ep. reflexivity.
  - apply main_loop_processable.
Qed.

Lemma main_touches_only_listed_witness :
  snd (fst (main (one_file "notes.txt" (py "}
/** doc */")))) "notes.txt"%string
  = Some (Regular (py "}
/** doc */")).
Proof.
  apply (proj1 (main_touches_only_listed
                  (one_file "notes.txt" (py "}
/** doc */")) "notes.txt")).
  unfold FILES. simpl. intros H.
  repeat (destruct H as [H|H]; [discriminate|]). exact H.
Defined.

(** X10.  A second run of [main] finds nothing left to do: it leaves
    every file as the first run left it, and it returns the status the
    first run returned. *)
Theorem main_second_run (fs : filesystem) :
  let fs1 := snd (fst (main fs)) in
  (forall f, snd (fst (main fs1)) f = fs1 f)
  /\ fst (fst (main fs1)) = fst (fst (main fs)).
Proof.
  cbv zeta. split.
  - intros f. rewrite (main_fs (snd (fst (main fs)))).
    destruct (processable (snd (fst (main fs))) f) eqn:Ep.
    + destruct (in_dec string_dec f FILES) as [Hin|Hout];
        [|apply main_loop_keeps; exact Hout].
      pose proof Ep as Ep0. rewrite main_fs, main_loop_processable in Ep0.
      apply processable_regular in Ep0 as [c E].
      assert (E1 : snd (fst (main fs)) f = Some (Regular (apply_fixes c)))
        by (rewrite main_fs;
            apply (main_loop_rewrites _ _ _ _ _ _ FILES_NoDup Hin E)).
      rewrite (main_loop_rewrites _ _ _ _ _ _ FILES_NoDup Hin E1).
      rewrite apply_fixes_twice. symmetry. exact E1.
    + apply main_loop_unprocessable. exact Ep.
  - rewrite !main_status.
    rewrite (filter_ext (fun f => negb (processable (snd (fst (main fs))) f))
               (fun f => negb (processable fs f))); [reflexivity|].
    intros f. rewrite main_fs, main_loop_processable. reflexivity.
Qed.

Lemma main_loop_reported (files : list string) (fs : filesystem) (t : tally)
  (out : list message) :
  flat_map reported (snd (main_loop files fs t out)) =
  flat_map reported out ++ files.
Proof.
  revert fs t out; induction files as [|g files IH]; intros fs t out.
  - simpl. symmetry. apply app_nil_r.
  - cbn [main_loop]. rewrite process_file_result.
    destruct (fs g) as [[|c|c]|]; rewrite IH, flat_map_app, <- app_assoc;
      reflexivity.
Qed.

(** X11.  [main] reports on every file of its list once and in the order
    of the list, whatever the outcome for each: the files named by its
    messages, read in order, are the list. *)
Theorem main_reports_in_order (fs : filesystem) :
  flat_map reported (snd (main fs)) = FILES.
Proof.
  destruct (main_out fs) as (s & n & ->).
  rewrite flat_map_app, main_loop_reported.
  change (flat_map reported [Summary s n]) with (@nil string).
  rewrite app_nil_r. reflexivity.
Qed.

(** ** The span a rule replaces *)

Lemma comment_match_rest (kw a b suf : str) :
  no_newline kw = true -> no_newline a = true -> no_newline b = true ->
  contains CLOSE suf = false ->
  match_here (banner_re kw) (OPEN ++ a ++ kw ++ b ++ CLOSE ++ suf) = Some suf.
Proof.
  intros Hkw Ha Hb Hc.
  assert (Hc' : contains CLOSE (47%N :: suf) = false)
    by (rewrite contains_cons, Hc; reflexivity).
  assert (E : exists r, match_here (banner_re kw)
                          (OPEN ++ a ++ kw ++ b ++ CLOSE ++ suf) = Some r).
  { unfold banner_re. rewrite match_lit_app.
    apply (star_complete CDot _ a _ suf); [exact Ha|].
    rewrite match_lit_app. apply (close_last b suf Hb Hc). }
  destruct E as [r E]. rewrite E. f_equal.
  apply banner_match_inv in E as (u & v & Heq & Hu & Hv).
  apply app_inv_head in Heq.
  assert (Heq' : ((a ++ kw ++ b) ++ [42%N; 47%N]) ++ suf = (u ++ kw) ++ v)
    by (rewrite <- !app_assoc; exact Heq).
  apply app_eq_app in Heq' as [z [[H1 H2]|[H1 H2]]].
  - subst v. destruct (suffix_two _ _ _ _ _ H1) as [->|[->|[z' ->]]].
    + change ([] ++ suf) with suf in Hv.
      rewrite (close_none _ Hc) in Hv. discriminate.
    + change ([47%N] ++ suf) with (47%N :: suf) in Hv.
      rewrite (close_none _ Hc') in Hv. discriminate.
    + assert (Hz : no_newline z' = true).
      { assert (Hall : no_newline ((a ++ kw ++ b) ++ [42%N; 47%N]) = true)
          by (rewrite !no_newline_app, Ha, Hkw, Hb; reflexivity).
        rewrite H1, !no_newline_app in Hall.
        apply andb_true_iff in Hall as [_ Hall].
        apply andb_true_iff in Hall as [Hall _]. exact Hall. }
      change [42%N; 47%N] with CLOSE in Hv.
      rewrite <- app_assoc, (close_last _ _ Hz Hc) in Hv. congruence.
  - subst suf. apply contains_suffix in Hc.
    rewrite (close_none _ Hc) in Hv. discriminate.
Qed.

Lemma nth_error_split_list (l : list (regex * str)) (k : nat)
  (r : regex * str) :
  nth_error l k = Some r -> l = firstn k l ++ r :: skipn (S k) l.
Proof.
  revert l; induction k as [|k IH]; intros [|x l] H; try discriminate.
  - injection H as ->. reflexivity.
  - cbn [firstn skipn app]. f_equal. apply IH. exact H.
Qed.

Lemma nth_error_split_at (k : nat) (r : regex * str) :
  nth_error replacements k = Some r ->
  replacements = firstn k replacements ++ r :: skipn (S k) replacements.
Proof. apply nth_error_split_list. Qed.

(** X12.  On a line, a rule replaces everything from the first comment
    opener to the last comment closer, whatever stands between them, and
    keeps what is before and after.  Precisely: take a line made of a text
    without opener, an opener, any text, the keyword of a category, any
    text, a closer, and a text without closer; if the keyword of no
    earlier category is on the line, the banner pass returns the first
    text, the banner of the category and the last text. *)
Theorem comment_span_replaced
  (k : nat) (kw bn pre a b suf : str) :
  nth_error replacements k = Some (banner_re kw, bn) ->
  no_newline (pre ++ a ++ b ++ suf) = true ->
  contains (py "/*") pre = false ->
  contains (py "*/") suf = false ->
  forallb (fun r => negb (contains (keyword_of (fst r))
                            (pre ++ py "/*" ++ a ++ kw ++ b ++ py "*/" ++ suf)))
          (firstn k replacements) = true ->
  fix_comment_separators (pre ++ py "/*" ++ a ++ kw ++ b ++ py "*/" ++ suf) =
  pre ++ bn ++ suf.
Proof.
  intros Hk Hnl Hpre Hsuf Hearlier.
  change (py "/*") with OPEN in *. change (py "*/") with CLOSE in *.
  rewrite !no_newline_app in Hnl.
  apply andb_true_iff in Hnl as [Hnpre Hnl].
  apply andb_true_iff in Hnl as [Ha Hnl].
  apply andb_true_iff in Hnl as [Hb Hnsuf].
  pose proof replacements_rules as HR.
  assert (Hin : In (banner_re kw, bn) replacements)
    by (apply (nth_error_In _ _ Hk)).
  pose proof HR as HR'. rewrite Forall_forall in HR'.
  destruct (HR' _ Hin) as (kw0 & Hp & Hkw & _). cbn [fst] in Hp.
  assert (kw0 = kw)
    by (rewrite <- (keyword_of_banner_re kw0), <- Hp;
        apply keyword_of_banner_re).
  subst kw0.
  pose proof (nth_error_split_at k _ Hk) as Hs.
  remember (firstn k replacements) as done eqn:Hdone.
  remember (skipn (S k) replacements) as todo eqn:Htodo.
  clear Hdone Htodo.
  assert (Hdone : Forall is_rule done).
  { rewrite Forall_forall. intros x Hx. apply HR'. rewrite Hs.
    apply in_or_app. left. exact Hx. }
  rewrite fcs_fold, Hs, fold_left_app.
  rewrite (no_keyword_unchanged done _ Hdone Hearlier).
  rewrite fold_left_cons, apply_rule_pair.
  rewrite skip_pre by exact Hpre.
  rewrite (re_sub_match _ _ (banner_re_one kw) _ _
             (comment_match_rest kw a b suf Hkw Ha Hb Hsuf)).
  rewrite sub_no_close by exact Hsuf.
  apply fold_settled.
  - intros x Hx. rewrite Hs. apply in_or_app. right. right. exact Hx.
  - apply (rule_settles (banner_re kw, bn) pre suf Hin Hpre Hnsuf Hsuf).
Qed.

Lemma comment_span_replaced_witness :
  fix_comment_separators
    (py "int a; " ++ py "/*" ++ py " x */ code(); /* " ++ py "宏 定 义"
       ++ py " */ more(); /* end " ++ py "*/" ++ py " int b;") =
  py "int a; "
    ++ py "/*************************** 宏定义 ****************************/"
    ++ py " int b;".
Proof.
  apply (comment_span_replaced 3 (py "宏 定 义")
           (py "/*************************** 宏定义 ****************************/")
           (py "int a; ") (py " x */ code(); /* ") (py " */ more(); /* end ")
           (py " int b;")); reflexivity.
Defined.
